(** * SpaceBackground: the starfield and the nebula of the 3D background

    A shallow embedding of [technex-3d/src/SpaceBackground.js]:
    [RealisticStarfield] (the [useMemo] generator of the star buffers and the
    [useFrame] twinkle callback) and [CosmicDust] (the nebula raster).

    Numbers.  A JavaScript number is modelled by a real number: [+], [-], [*]
    and the comparisons are the exact ones, [Math.sin], [Math.cos], [Math.exp]
    are the real functions, and the rounding of binary64 arithmetic and of a
    [Float32Array] store is not modelled.  The values that are not real numbers
    are kept apart: a computation stops with [NotANumber] where the script
    would obtain [NaN] or [undefined], and [Math.pow] returns a [Number], which
    has [NaN] and the infinities.  The one place where binary64 itself is
    the subject, the sum of the class weights, is also computed on [float].

    [Math.random()] is an oracle: the n-th call returns [rnd n].  Where a
    probability is meant, the draws are independent and uniform on [0, 1). *)

From Stdlib Require Import Reals Lra Lia ZArith Classical.
From Stdlib Require PrimFloat.
From stdpp Require Import base option list gmap strings.

Open Scope R_scope.

(** ** The script monad: an oracle for [Math.random], a counter of the calls
    made so far, and the three ways a run can end. *)

Inductive Result (A : Type) : Type :=
  | Ok (a : A)
  | NotANumber
  | OutOfFuel.
Arguments Ok {A} a.
Arguments NotANumber {A}.
Arguments OutOfFuel {A}.

Definition Oracle : Type := nat -> R.

Definition JS (A : Type) : Type := Oracle -> nat -> Result (A * nat).

Definition ret {A} (a : A) : JS A := fun _ p => Ok (a, p).

Definition bind {A B} (m : JS A) (k : A -> JS B) : JS B :=
  fun rnd p =>
    match m rnd p with
    | Ok (a, p') => k a rnd p'
    | NotANumber => NotANumber
    | OutOfFuel => OutOfFuel
    end.

Definition nan {A} : JS A := fun _ _ => NotANumber.
Definition outOfFuel {A} : JS A := fun _ _ => OutOfFuel.

Notation "'let*' x ':=' m 'in' k" := (bind m (fun x => k))
  (at level 10, x name, m at level 100, k at level 200).

(** [Math.random()]: the next value of the oracle. *)
Definition Math_random : JS R := fun rnd p => Ok (rnd p, S p).

(** The oracle respects the contract of [Math.random]: values in [0, 1). *)
Definition unit_interval (rnd : Oracle) : Prop := forall n, 0 <= rnd n < 1.

#[global] Instance Rlt_decision : RelDecision Rlt := Rlt_dec.
#[global] Instance Rle_decision : RelDecision Rle := Rle_dec.
#[global] Instance Rgt_decision : RelDecision Rgt := Rgt_dec.
#[global] Instance Req_decision : EqDecision R := Req_dec_T.

(** [Math.acos x] is [NaN] outside [-1, 1]. *)
Definition Math_acos (x : R) : JS R :=
  if decide (-1 <= x) then
    if decide (x <= 1) then ret (acos x) else nan
  else nan.

(** Numbers that need not be finite, for [Math.pow]. *)
Inductive Number : Type :=
  | Finite (x : R)
  | Infinity
  | NegInfinity
  | NaN.

(** [Math.pow base exponent] for real arguments. *)
Definition Math_pow (base exponent : R) : Number :=
  if decide (0 < base) then Finite (Rpower base exponent)
  else if decide (base = 0) then
    if decide (0 < exponent) then Finite 0
    else if decide (exponent = 0) then Finite 1
    else Infinity
  else if decide (exponent = IZR (Int_part exponent))
    then Finite (powerRZ base (Int_part exponent))
    else NaN.

(** [n * k], with [k] a finite constant. *)
Definition Number_times (n : Number) (k : R) : Number :=
  match n with
  | Finite x => Finite (x * k)
  | Infinity =>
      if decide (0 < k) then Infinity
      else if decide (k < 0) then NegInfinity else NaN
  | NegInfinity =>
      if decide (0 < k) then NegInfinity
      else if decide (k < 0) then Infinity else NaN
  | NaN => NaN
  end.

(** [Math.min(a, n)], with [a] a finite constant. *)
Definition Number_min (a : R) (n : Number) : Number :=
  match n with
  | Finite x => Finite (Rmin a x)
  | Infinity => Finite a
  | NegInfinity => NegInfinity
  | NaN => NaN
  end.

(** ** Typed arrays *)

(** [new Float32Array(n)]: [n] zeros. *)
Definition Float32Array (n : nat) : list R := replicate n 0.

(** [a[i] = v] on a typed array: [<[i:=v]> a]; a store past the end is
    ignored, as it is by stdpp's insert. *)

(** ** RealisticStarfield: generation of the buffers ([useMemo]) *)

Module THREE.
Record Color : Type := mkColor { r : R; g : R; b : R }.
End THREE.

Record StellarType : Type := mkStellarType {
  color : THREE.Color;
  weight : R;
  size : R
}.

Definition stellarTypes : list StellarType := [
  mkStellarType (THREE.mkColor 0.95 0.8 0.65) 0.75 0.3;
  mkStellarType (THREE.mkColor 1.0 0.9 0.7) 0.12 0.6;
  mkStellarType (THREE.mkColor 1.0 1.0 0.9) 0.08 0.8;
  mkStellarType (THREE.mkColor 1.0 0.98 0.85) 0.03 1.2;
  mkStellarType (THREE.mkColor 0.95 0.98 1.0) 0.015 1.8;
  mkStellarType (THREE.mkColor 0.9 0.95 1.0) 0.003 2.5;
  mkStellarType (THREE.mkColor 0.85 0.9 1.0) 0.001 3.0;
  mkStellarType (THREE.mkColor 1.0 0.6 0.4) 0.001 4.0
].

#[global] Instance StellarType_inhabited : Inhabited StellarType :=
  populate (mkStellarType (THREE.mkColor 0 0 0) 0 0).

(** The weights as the binary64 numbers the script adds up, and
    [cumulative += type.weight] over the table, in binary64. *)
Section Binary64.
Import PrimFloat.

#[warnings="-inexact-float"] Definition stellarWeights64 : list float :=
  [0.75; 0.12; 0.08; 0.03; 0.015; 0.003; 0.001; 0.001]%float.

Definition cumulative64 : float := fold_left add stellarWeights64 0%float.

(** The running sums, in binary64, reach exactly 1. *)
Definition cumulative64_is_1 : bool := eqb cumulative64 1%float.
End Binary64.

Record StarBuffers : Type := mkStarBuffers {
  positions : list R;
  colors : list R;
  sizes : list R;
  magnitudes : list R
}.

(** The head of the loop body: [true] when the star is skipped
    ([i--; continue]).  The third draw is made only when [shouldPlace] is
    false, [&&] being lazy. *)
Definition skipStar : JS bool :=
  let* r0 := Math_random in
  let galacticLatitude := (r0 - 0.5) * PI in
  let galacticDensity := exp (- Rabs galacticLatitude * 3) in
  let* r1 := Math_random in
  let shouldPlace := bool_decide (r1 < galacticDensity * 0.3 + 0.1) in
  if shouldPlace then ret false
  else let* r2 := Math_random in ret (bool_decide (r2 > 0.3)).

(** [let radius; if (i < count * 0.1) ... else if (i < count * 0.3) ...] *)
Definition starRadius (count i : nat) : JS R :=
  if decide (INR i < INR count * 0.1) then
    let* r := Math_random in ret (r * 100 + 50)
  else if decide (INR i < INR count * 0.3) then
    let* r := Math_random in ret (r * 300 + 150)
  else
    let* r := Math_random in ret (r * 800 + 400).

(** [for (const type of stellarTypes) { cumulative += type.weight;
    if (rand <= cumulative) { selectedType = type; break } }] *)
Fixpoint selectLoop (types : list StellarType) (cumulative rand : R)
    (selectedType : StellarType) : StellarType :=
  match types with
  | [] => selectedType
  | type :: rest =>
      let cumulative := cumulative + weight type in
      if decide (rand <= cumulative) then type
      else selectLoop rest cumulative rand selectedType
  end.

Definition selectStellarType (rand : R) : StellarType :=
  selectLoop stellarTypes 0 rand (stellarTypes !!! 0%nat).

(** [let finalSize; if (magnitude < 0.85) ... else if (magnitude < 0.97) ...] *)
Definition starSize (selectedType : StellarType) (magnitude : R) : JS R :=
  if decide (magnitude < 0.85) then
    let* r := Math_random in ret (size selectedType * (0.1 + r * 0.3))
  else if decide (magnitude < 0.97) then
    let* r := Math_random in ret (size selectedType * (0.4 + r * 0.6))
  else
    let* r := Math_random in ret (size selectedType * (1.0 + r * 1.5)).

(** The rest of the loop body, for a star that is placed at index [i]. *)
Definition placeStar (count i : nat) (bufs : StarBuffers) : JS StarBuffers :=
  let* radius := starRadius count i in
  let* r := Math_random in
  let theta := r * PI * 2 in
  let* r := Math_random in
  let* phi := Math_acos (r * 2 - 1) in
  let positions :=
    <[(i * 3 + 2)%nat := radius * cos phi]>
      (<[(i * 3 + 1)%nat := radius * sin phi * sin theta]>
        (<[(i * 3)%nat := radius * sin phi * cos theta]> (positions bufs))) in
  let* rand := Math_random in
  let selectedType := selectStellarType rand in
  let* magnitude := Math_random in
  let* finalSize := starSize selectedType magnitude in
  let sizes := <[i := finalSize]> (sizes bufs) in
  let magnitudes := <[i := magnitude]> (magnitudes bufs) in
  let* r := Math_random in
  let colorVariation := 1 + (r - 0.5) * 0.1 in
  let colors :=
    <[(i * 3 + 2)%nat := Rmin 1 (THREE.b (color selectedType) * colorVariation)]>
      (<[(i * 3 + 1)%nat := Rmin 1 (THREE.g (color selectedType) * colorVariation)]>
        (<[(i * 3)%nat := Rmin 1 (THREE.r (color selectedType) * colorVariation)]>
          (colors bufs))) in
  ret (mkStarBuffers positions colors sizes magnitudes).

(** [for (let i = 0; i < count; i++) { ... }].  A skipped star runs
    [i--; continue], and the [i++] of the loop brings [i] back: the next
    round is for the same index.  [fuel] bounds the number of rounds. *)
Fixpoint starLoop (fuel count i : nat) (bufs : StarBuffers) : JS StarBuffers :=
  if decide (i < count)%nat then
    match fuel with
    | O => outOfFuel
    | S fuel =>
        let* skip := skipStar in
        if (skip : bool) then starLoop fuel count i bufs
        else let* bufs := placeStar count i bufs in starLoop fuel count (S i) bufs
    end
  else ret bufs.

(** The [useMemo] callback of [RealisticStarfield]. *)
Definition generateStars (fuel count : nat) : JS StarBuffers :=
  starLoop fuel count 0
    (mkStarBuffers (Float32Array (count * 3)) (Float32Array (count * 3))
       (Float32Array count) (Float32Array count)).

(** ** RealisticStarfield: the scene and the twinkle callback ([useFrame]) *)

(** Typed arrays are objects: the scene keeps them in a store, by identity, so
    that an attribute of the geometry may be the very array the callback
    reads its base values from. *)
Abbreviation Store := (gmap nat (list R)).

Record BufferAttribute : Type := mkBufferAttribute {
  array : nat;
  needsUpdate : bool
}.

Record BufferGeometry : Type := mkBufferGeometry {
  attributes_position : BufferAttribute;
  attributes_color : BufferAttribute;
  attributes_size : BufferAttribute
}.

(** What the callback closes over: [count], the four arrays of [useMemo]
    and [ref.current] (its geometry, once the points are mounted). *)
Record Starfield : Type := mkStarfield {
  count : nat;
  store : Store;
  positions_ : nat;
  colors_ : nat;
  sizes_ : nat;
  magnitudes_ : nat;
  ref_current : option BufferGeometry
}.

(** [a[i]] as a number: [undefined], hence [NaN], past the end. *)
Definition load (h : Store) (a i : nat) : JS R :=
  match h !! a with
  | Some l => match l !! i with Some v => ret v | None => nan end
  | None => nan
  end.

(** [a[i] = v] *)
Definition save (h : Store) (a i : nat) (v : R) : Store :=
  alter (<[i := v]>) a h.

Definition twinkleIntensity (size_i : R) : R :=
  Rmax 0 ((size_i - 0.5) * 0.3).

(** [Math.sin(time * (1 + Math.random() * 3) + i * 0.123) * twinkleIntensity + 1],
    [r] being the value [Math.random()] returned. *)
Definition scintillation (time r : R) (i : nat) (size_i : R) : R :=
  sin (time * (1 + r * 3) + INR i * 0.123) * twinkleIntensity size_i + 1.

Definition colorShift (scint : R) : R := (scint - 1) * 0.05.

(** The body of the loop of the callback. *)
Definition twinkleStar (time : R) (sizes colors : nat)
    (sizeAttribute colorAttribute : BufferAttribute) (i : nat) (h : Store)
    : JS Store :=
  let* s := load h sizes i in
  let* r := Math_random in
  let scint := scintillation time r i s in
  let* s := load h sizes i in
  let h := save h (array sizeAttribute) i (s * Rmax 0.3 scint) in
  let shift := colorShift scint in
  let* c := load h colors (i * 3) in
  let h := save h (array colorAttribute) (i * 3) (Rmin 1 (c * (1 + shift))) in
  let* c := load h colors (i * 3 + 1) in
  let h := save h (array colorAttribute) (i * 3 + 1)
             (Rmin 1 (c * (1 - shift * 0.3))) in
  let* c := load h colors (i * 3 + 2) in
  let h := save h (array colorAttribute) (i * 3 + 2)
             (Rmin 1 (c * (1 - shift * 0.6))) in
  ret h.

(** [for (let i = ...; ...; i++) body], [n] rounds from index [i]. *)
Fixpoint forLoop {St : Type} (n i : nat) (body : nat -> St -> JS St) (s : St)
    : JS St :=
  match n with
  | O => ret s
  | S n => let* s := body i s in forLoop n (S i) body s
  end.

Definition markDirty (a : BufferAttribute) : BufferAttribute :=
  mkBufferAttribute (array a) true.

(** The [useFrame] callback of [RealisticStarfield]; [time] is
    [state.clock.elapsedTime]. *)
Definition useFrame (time : R) (sf : Starfield) : JS Starfield :=
  match ref_current sf with
  | None => ret sf
  | Some geometry =>
      let sizeAttribute := attributes_size geometry in
      let colorAttribute := attributes_color geometry in
      let* h := forLoop (count sf) 0
                  (twinkleStar time (sizes_ sf) (colors_ sf)
                     sizeAttribute colorAttribute) (store sf) in
      ret (mkStarfield (count sf) h (positions_ sf) (colors_ sf) (sizes_ sf)
             (magnitudes_ sf)
             (Some (mkBufferGeometry (attributes_position geometry)
                      (markDirty colorAttribute) (markDirty sizeAttribute))))
  end.

(** Mounting the points: the arrays of [useMemo] go to the store and the
    geometry gets its attributes.  The points component belongs to the
    rendering library; whether an attribute wraps the array it is given
    ([shared]) or a copy of it is the library's choice, and both are kept. *)
Definition mount (shared : bool) (n : nat) (bufs : StarBuffers) : Starfield :=
  let h : Store :=
    <[3%nat := magnitudes bufs]> (<[2%nat := sizes bufs]>
      (<[1%nat := colors bufs]> (<[0%nat := positions bufs]> ∅))) in
  if shared then
    mkStarfield n h 0 1 2 3
      (Some (mkBufferGeometry (mkBufferAttribute 0 false)
               (mkBufferAttribute 1 false) (mkBufferAttribute 2 false)))
  else
    mkStarfield n
      (<[6%nat := sizes bufs]> (<[5%nat := colors bufs]>
         (<[4%nat := positions bufs]> h))) 0 1 2 3
      (Some (mkBufferGeometry (mkBufferAttribute 4 false)
               (mkBufferAttribute 5 false) (mkBufferAttribute 6 false))).

(** ** CosmicDust: the nebula raster *)

(** A store into a [Uint8ClampedArray]: [NaN] gives 0, the value is clamped
    to [0, 255] and rounded to the nearest integer, ties to even. *)
Definition ToUint8Clamp (v : Number) : Z :=
  match v with
  | NaN => 0%Z
  | NegInfinity => 0%Z
  | Infinity => 255%Z
  | Finite x =>
      if decide (x <= 0) then 0%Z
      else if decide (255 <= x) then 255%Z
      else
        let f := Int_part x in
        if decide (IZR f + 0.5 < x) then (f + 1)%Z
        else if decide (x < IZR f + 0.5) then f
        else if Z.even f then f else (f + 1)%Z
  end.

(** The sum of the four octaves and of the turbulence, for pixel [(x, y)]. *)
Definition nebulaNoise (x y : nat) : R :=
  let nx := INR x / 512 in
  let ny := INR y / 512 in
  let noise := 0 in
  let noise := noise + sin (nx * 12 + ny * 8) * 0.5 in
  let noise := noise + sin (nx * 24 + ny * 16) * 0.25 in
  let noise := noise + sin (nx * 48 + ny * 32) * 0.125 in
  let noise := noise + sin (nx * 96 + ny * 64) * 0.0625 in
  let turbulence := sin (nx * 80 + cos (ny * 60) * 2) * 0.3 in
  noise + turbulence.

(** [const alpha = Math.min(255, noise * 80)] *)
Definition nebulaAlpha (x y : nat) : Number :=
  let noise := nebulaNoise x y in
  let noise := (noise + 1) * 0.5 in
  let noise := Math_pow (Rmax 0 (noise - 0.4)) 2.5 in
  Number_min 255 (Number_times noise 80).

(** The body of the inner loop: the four stores of pixel [(x, y)]. *)
Definition nebulaPixel (type : string) (y x : nat) (data : list Z) : list Z :=
  let i := ((y * 512 + x) * 4)%nat in
  let alpha := nebulaAlpha x y in
  let data :=
    if decide (type = "dark") then
      <[(i + 2)%nat := ToUint8Clamp (Finite 10)]>
        (<[(i + 1)%nat := ToUint8Clamp (Finite 15)]>
          (<[i := ToUint8Clamp (Finite 20)]> data))
    else
      <[(i + 2)%nat := ToUint8Clamp (Finite 255)]>
        (<[(i + 1)%nat := ToUint8Clamp (Finite 200)]>
          (<[i := ToUint8Clamp (Finite 180)]> data)) in
  <[(i + 3)%nat := ToUint8Clamp alpha]> data.

(** A loop without effects: [body 0], ..., [body (n - 1)] in turn. *)
Definition forEach {St : Type} (n : nat) (body : nat -> St -> St) (s : St)
    : St :=
  fold_left (fun s i => body i s) (seq 0 n) s.

(** [ctx.createImageData(512, 512).data]: transparent black. *)
Definition createImageData (width height : nat) : list Z :=
  replicate (width * height * 4) 0%Z.

Inductive Blending : Type := MultiplyBlending | AdditiveBlending.

Record MeshBasicMaterial : Type := mkMeshBasicMaterial {
  map : list Z;
  opacity : R;
  blending : Blending
}.

(** The [useMemo] callback that builds [dustMaterial]. *)
Definition dustMaterial (type : string) : JS MeshBasicMaterial :=
  let data := createImageData 512 512 in
  let data :=
    forEach 512 (fun y data => forEach 512 (nebulaPixel type y) data) data in
  ret (mkMeshBasicMaterial data
         (if decide (type = "dark") then 0.3 else 0.08)
         (if decide (type = "dark") then MultiplyBlending
          else AdditiveBlending)).

(** [useFrame] of [CosmicDust]: the mesh turns a little about y and z. *)
Module Object3D.
Record Euler : Type := mkEuler { x : R; y : R; z : R }.
End Object3D.

(** [ref.current.rotation], when the mesh is mounted. *)
Definition dustFrame (ref_current : option Object3D.Euler)
    : option Object3D.Euler :=
  match ref_current with
  | Some rotation =>
      let rotation :=
        Object3D.mkEuler (Object3D.x rotation)
          (Object3D.y rotation + 0.00005) (Object3D.z rotation) in
      let rotation :=
        Object3D.mkEuler (Object3D.x rotation) (Object3D.y rotation)
          (Object3D.z rotation + 0.00003) in
      Some rotation
  | None => None
  end.

(** ** DeepSpaceObjects *)

Record SpaceObject : Type := mkSpaceObject {
  position : list R;
  type : string;
  brightness : R
}.

(** The body of the first loop: a distant galaxy is pushed. *)
Definition pushGalaxy (i : nat) (objectData : list SpaceObject)
    : JS (list SpaceObject) :=
  let* r := Math_random in
  let radius := r * 600 + 400 in
  let* r := Math_random in
  let theta := r * PI * 2 in
  let* r := Math_random in
  let* phi := Math_acos (r * 2 - 1) in
  let position :=
    [radius * sin phi * cos theta; radius * sin phi * sin theta;
     radius * cos phi] in
  let* r := Math_random in
  ret (objectData ++ [mkSpaceObject position "galaxy" (0.15 + r * 0.2)]).

(** The body of the second loop: a globular cluster is pushed. *)
Definition pushCluster (i : nat) (objectData : list SpaceObject)
    : JS (list SpaceObject) :=
  let* r := Math_random in
  let radius := r * 500 + 300 in
  let* r := Math_random in
  let theta := r * PI * 2 in
  let* r := Math_random in
  let* phi := Math_acos (r * 2 - 1) in
  let position :=
    [radius * sin phi * cos theta; radius * sin phi * sin theta;
     radius * cos phi] in
  let* r := Math_random in
  ret (objectData ++ [mkSpaceObject position "cluster" (0.3 + r * 0.3)]).

(** The [useMemo] callback of [DeepSpaceObjects]. *)
Definition deepSpaceObjects : JS (list SpaceObject) :=
  let objectData := [] in
  let* objectData := forLoop 15 0 pushGalaxy objectData in
  let* objectData := forLoop 8 0 pushCluster objectData in
  ret objectData.

(** What [objects.map] renders for an object: the mesh, its sphere and its
    material. *)
Record ObjectMesh : Type := mkObjectMesh {
  key : nat;
  mesh_position : list R;
  sphereGeometry_args : R * nat * nat;
  material_color : THREE.Color;
  material_transparent : bool;
  material_opacity : R
}.

Definition renderObject (index : nat) (obj : SpaceObject) : ObjectMesh :=
  mkObjectMesh index (position obj)
    (if decide (type obj = "galaxy") then (0.15, 6%nat, 6%nat)
     else (0.08, 8%nat, 8%nat))
    (THREE.mkColor
       (if decide (type obj = "galaxy") then 0.95 else 1.0)
       (if decide (type obj = "galaxy") then 0.92 else 0.95)
       1.0)
    true
    (brightness obj * 0.4).

Definition renderObjects (objects : list SpaceObject) : list ObjectMesh :=
  imap renderObject objects.

(** ** FloatingReferenceObjects: the group turns about y and x
    ([useFrame]). *)
Definition referenceFrame (group_current : option Object3D.Euler)
    : option Object3D.Euler :=
  match group_current with
  | Some rotation =>
      let rotation :=
        Object3D.mkEuler (Object3D.x rotation)
          (Object3D.y rotation + 0.001) (Object3D.z rotation) in
      let rotation :=
        Object3D.mkEuler (Object3D.x rotation + 0.0005)
          (Object3D.y rotation) (Object3D.z rotation) in
      Some rotation
  | None => None
  end.

(** ** Reading the store *)

(** The number at index [i] of array [a], if there is one. *)
Definition get (h : Store) (a i : nat) : option R :=
  match h !! a with Some l => l !! i | None => None end.

(** The length of array [a]. *)
Definition size_of (h : Store) (a : nat) : option nat :=
  length <$> h !! a.

(** The running sum [cumulative] after [k] rounds of the selection loop. *)
Definition cumulativeWeight (k : nat) : R :=
  fold_left Rplus (take k (weight <$> stellarTypes)) 0.

(** The four arrays the callback touches have the lengths [useMemo] gave
    them: [n] sizes and [n * 3] colour channels. *)
Definition sized (n zs cs : nat) (sA cA : BufferAttribute) (h : Store) : Prop :=
  size_of h zs = Some n /\ size_of h cs = Some (n * 3)%nat /\
  size_of h (array sA) = Some n /\ size_of h (array cA) = Some (n * 3)%nat.

(** A mounted starfield [sf] with geometry [g]: the arrays have the lengths
    of [count], the size attribute and the colour attribute wrap two
    different arrays, each one either the array of base values of its own
    kind or an array of its own, and no base colour exceeds 1. *)
Record wf_starfield (sf : Starfield) (g : BufferGeometry) : Prop := mk_wf {
  wf_current : ref_current sf = Some g;
  wf_sized :
    sized (count sf) (sizes_ sf) (colors_ sf)
      (attributes_size g) (attributes_color g) (store sf);
  wf_size_color : array (attributes_size g) <> array (attributes_color g);
  wf_sizes_color : sizes_ sf <> array (attributes_color g);
  wf_colors_size : colors_ sf <> array (attributes_size g);
  wf_positions :
    positions_ sf <> array (attributes_size g) /\
    positions_ sf <> array (attributes_color g);
  wf_magnitudes :
    magnitudes_ sf <> array (attributes_size g) /\
    magnitudes_ sf <> array (attributes_color g);
  wf_colors_le_1 :
    forall j c, get (store sf) (colors_ sf) j = Some c -> c <= 1
}.

(** The geometry after a frame: the two attributes are marked for upload. *)
Definition dirty (g : BufferGeometry) : BufferGeometry :=
  mkBufferGeometry (attributes_position g)
    (markDirty (attributes_color g)) (markDirty (attributes_size g)).

(** The geometry that [mount] builds. *)
Definition mounted (shared : bool) : BufferGeometry :=
  if shared then
    mkBufferGeometry (mkBufferAttribute 0 false) (mkBufferAttribute 1 false)
      (mkBufferAttribute 2 false)
  else
    mkBufferGeometry (mkBufferAttribute 4 false) (mkBufferAttribute 5 false)
      (mkBufferAttribute 6 false).

(** A starfield of one star of base size [s], of class M, 50 units away,
    with the attributes sharing the arrays. *)
Definition oneStar (s : R) : Starfield :=
  mount true 1 (mkStarBuffers [50; 0; 0] [0.95; 0.8; 0.65] [s] [0.5]).

(** The band of distances of star [i] among [count] stars. *)
Definition inTier (count i : nat) (m : R) : Prop :=
  if decide (INR i < INR count * 0.1) then 50 <= m <= 150
  else if decide (INR i < INR count * 0.3) then 150 <= m <= 450
  else 400 <= m <= 1200.

(** The buffers have the lengths of [count] stars. *)
Definition starBuffersOf (count : nat) (bufs : StarBuffers) : Prop :=
  length (positions bufs) = (count * 3)%nat /\
  length (colors bufs) = (count * 3)%nat /\
  length (sizes bufs) = count /\
  length (magnitudes bufs) = count.

(** Star [i] has been written: its position is at a distance within its
    band, its three colour channels are in (0, 1], its size is positive and
    its magnitude is a number the oracle returned.  (A fresh buffer holds
    zeros: distance 0, colour 0, size 0.) *)
Record starPlaced (rnd : Oracle) (count : nat) (bufs : StarBuffers) (i : nat)
    : Prop := mk_starPlaced {
  placed_position :
    exists x y z,
      positions bufs !! (i * 3)%nat = Some x /\
      positions bufs !! (i * 3 + 1)%nat = Some y /\
      positions bufs !! (i * 3 + 2)%nat = Some z /\
      inTier count i (sqrt (x * x + y * y + z * z));
  placed_color :
    forall k, (k < 3)%nat ->
      exists c, colors bufs !! (i * 3 + k)%nat = Some c /\ 0 < c <= 1;
  placed_size : exists s, sizes bufs !! i = Some s /\ 0 < s;
  placed_magnitude : exists q, magnitudes bufs !! i = Some (rnd q)
}.

(** From the draw number [p] on, the skip-and-retry step lets a star through
    after finitely many rounds. *)
Inductive accepts (rnd : Oracle) : nat -> Prop :=
  | accepts_now p q : skipStar rnd p = Ok (false, q) -> accepts rnd p
  | accepts_later p q :
      skipStar rnd p = Ok (true, q) -> accepts rnd q -> accepts rnd p.

(** The starfields the component goes through: the buffers [useMemo]
    returned, mounted, and then any number of frames. *)
Inductive reachable : Starfield -> Prop :=
  | reach_mount shared fuel n rnd p bufs q :
      unit_interval rnd ->
      generateStars fuel n rnd p = Ok (bufs, q) ->
      reachable (mount shared n bufs)
  | reach_frame time sf rnd p sf' q :
      reachable sf ->
      useFrame time sf rnd p = Ok (sf', q) ->
      reachable sf'.

(** What the raster holds at channel [c] of pixel [(x, y)]. *)
Definition nebulaChannel (type : string) (x y c : nat) : Z :=
  match c with
  | 0%nat => if decide (type = "dark") then 20%Z else 180%Z
  | 1%nat => if decide (type = "dark") then 15%Z else 200%Z
  | 2%nat => if decide (type = "dark") then 10%Z else 255%Z
  | _ => ToUint8Clamp (nebulaAlpha x y)
  end.

(** The same, by the index in the raster. *)
Definition nebulaEntry (type : string) (j : nat) : Z :=
  nebulaChannel type ((j / 4) mod 512)%nat (j / 4 / 512)%nat (j mod 4)%nat.

(** The size [s] of a star of class [t] and magnitude [m]: a fraction of
    the size of the class that depends on the brightness tier. *)
Definition tierSize (t : StellarType) (m s : R) : Prop :=
  (m < 0.85 -> 0.1 * size t <= s < 0.4 * size t) /\
  (0.85 <= m -> m < 0.97 -> 0.4 * size t <= s < size t) /\
  (0.97 <= m -> size t <= s < 2.5 * size t).

(** Star [i] has a magnitude of [0, 1) and the size of its tier, for some
    class of the table. *)
Definition starBright (bufs : StarBuffers) (i : nat) : Prop :=
  exists t m s,
    t ∈ stellarTypes /\ 0 <= m < 1 /\
    magnitudes bufs !! i = Some m /\ sizes bufs !! i = Some s /\
    tierSize t m s.

(** The same star, with attributes that have arrays of their own. *)
Definition oneStarCopied (s : R) : Starfield :=
  mount false 1 (mkStarBuffers [50; 0; 0] [0.95; 0.8; 0.65] [s] [0.5]).

(** A distant galaxy: 400 to 1000 units away, brightness in [0.15, 0.35). *)
Definition distantGalaxy (obj : SpaceObject) : Prop :=
  type obj = "galaxy" /\
  (exists x y z, position obj = [x; y; z] /\
                 400 <= sqrt (x * x + y * y + z * z) < 1000) /\
  0.15 <= brightness obj < 0.35.

(** A globular cluster: 300 to 800 units away, brightness in [0.3, 0.6). *)
Definition globularCluster (obj : SpaceObject) : Prop :=
  type obj = "cluster" /\
  (exists x y z, position obj = [x; y; z] /\
                 300 <= sqrt (x * x + y * y + z * z) < 800) /\
  0.3 <= brightness obj < 0.6.

(** ** The law of the draws *)

(** [Math.random()] draws are taken independent and uniform on [0, 1).  A box
    constrains finitely many draws, each to an interval [lo, hi] of [0, 1];
    its probability is its volume, the product of the lengths. *)
Definition Box : Type := list (nat * (R * R)).

Definition inBox (b : Box) (rnd : Oracle) : Prop :=
  Forall (fun c => fst (snd c) <= rnd (fst c) <= snd (snd c)) b.

Definition boxVolume (b : Box) : R :=
  foldr (fun c v => (snd (snd c) - fst (snd c)) * v) 1 b.

(** The constrained draws are distinct and the intervals lie in [0, 1]. *)
Definition properBox (b : Box) : Prop :=
  NoDup (fst <$> b) /\
  Forall (fun c => 0 <= fst (snd c) <= snd (snd c) /\ snd (snd c) <= 1) b.

(** A set of oracles of probability 0: for every [eps > 0] it is covered by
    a sequence of boxes whose volumes add up to at most [eps]. *)
Definition nullSet (A : Oracle -> Prop) : Prop :=
  forall eps, 0 < eps ->
  exists cover : nat -> Box,
    (forall n, properBox (cover n)) /\
    (forall rnd, A rnd -> exists n, inBox (cover n) rnd) /\
    (forall n, sum_f_R0 (fun k => boxVolume (cover k)) n <= eps).

(** The draws of [k] skipped rounds in a row from draw [p]: in each round
    the second draw is at least 0.1 and the third at least 0.3. *)
Fixpoint skipBox (p k : nat) : Box :=
  match k with
  | O => []
  | S k =>
      ((p + 1)%nat, (0.1, 1)) :: ((p + 2)%nat, (0.3, 1))
        :: skipBox (p + 3) k
  end.

(** An oracle under which the first round is skipped and the second places
    the star. *)
Definition skipOnce : Oracle :=
  fun n => if decide (n < 3)%nat then 0.99 else 0.


(** * Properties *)

(** ** The script monad *)

Lemma bind_Ok {A B} (m : JS A) (k : A -> JS B) rnd p a p' :
  m rnd p = Ok (a, p') -> bind m k rnd p = k a rnd p'.
Proof. intros H. unfold bind. by rewrite H. Qed.

Lemma bind_inv_Ok {A B} (m : JS A) (k : A -> JS B) rnd p b q :
  bind m k rnd p = Ok (b, q) ->
  exists a p', m rnd p = Ok (a, p') /\ k a rnd p' = Ok (b, q).
Proof.
  unfold bind. destruct (m rnd p) as [[a p']| |]; try discriminate.
  intros H. by exists a, p'.
Qed.

Lemma Math_random_Ok rnd p : Math_random rnd p = Ok (rnd p, S p).
Proof. reflexivity. Qed.

(** ** Arrays in the store *)

Lemma load_get h a i v rnd p :
  get h a i = Some v -> load h a i rnd p = Ok (v, p).
Proof.
  unfold get, load. destruct (h !! a) as [l|]; [|discriminate].
  intros ->. reflexivity.
Qed.

Lemma get_is_Some h a i n :
  size_of h a = Some n -> (i < n)%nat -> is_Some (get h a i).
Proof.
  unfold size_of, get. destruct (h !! a) as [l|]; simpl; [|discriminate].
  intros [= <-] Hi. by apply lookup_lt_is_Some_2.
Qed.

Lemma size_of_save h a i v a' : size_of (save h a i v) a' = size_of h a'.
Proof.
  unfold size_of, save. destruct (decide (a = a')) as [->|Hne].
  - rewrite lookup_alter_eq. destruct (h !! a') as [l|]; simpl; [|done].
    by rewrite length_insert.
  - by rewrite lookup_alter_ne.
Qed.

Lemma get_save_eq h a i v n :
  size_of h a = Some n -> (i < n)%nat -> get (save h a i v) a i = Some v.
Proof.
  unfold size_of, get, save. rewrite lookup_alter_eq.
  destruct (h !! a) as [l|]; simpl; [|discriminate].
  intros [= <-] Hi. by apply list_lookup_insert_eq.
Qed.

Lemma get_save_ne h a i v a' i' :
  a <> a' \/ i <> i' -> get (save h a i v) a' i' = get h a' i'.
Proof.
  unfold get, save. intros Hne. destruct (decide (a = a')) as [->|Ha].
  - rewrite lookup_alter_eq. destruct (h !! a') as [l|]; simpl; [|done].
    apply list_lookup_insert_ne. by destruct Hne.
  - by rewrite lookup_alter_ne.
Qed.

Lemma lookup_save_ne h a i v a' : a <> a' -> save h a i v !! a' = h !! a'.
Proof. intros Hne. unfold save. by rewrite lookup_alter_ne. Qed.

(** ** One round of the twinkle loop *)

Section TwinkleStar.
Variables (time : R) (zs cs : nat) (sA cA : BufferAttribute) (n : nat).
Hypothesis sA_cA : array sA <> array cA.
Hypothesis zs_cA : zs <> array cA.
Hypothesis cs_sA : cs <> array sA.

(** What round [i] reads, what it writes and what it leaves alone. *)
Lemma twinkleStar_spec h i rnd p :
  sized n zs cs sA cA h -> (i < n)%nat ->
  exists s c0 c1 c2 h',
    get h zs i = Some s /\
    get h cs (i * 3) = Some c0 /\
    get h cs (i * 3 + 1) = Some c1 /\
    get h cs (i * 3 + 2) = Some c2 /\
    twinkleStar time zs cs sA cA i h rnd p = Ok (h', S p) /\
    get h' (array sA) i
      = Some (s * Rmax 0.3 (scintillation time (rnd p) i s)) /\
    get h' (array cA) (i * 3)
      = Some (Rmin 1 (c0 * (1 + colorShift (scintillation time (rnd p) i s)))) /\
    get h' (array cA) (i * 3 + 1)
      = Some (Rmin 1 (c1 * (1 - colorShift (scintillation time (rnd p) i s) * 0.3))) /\
    get h' (array cA) (i * 3 + 2)
      = Some (Rmin 1 (c2 * (1 - colorShift (scintillation time (rnd p) i s) * 0.6))) /\
    sized n zs cs sA cA h' /\
    (forall a j, ~ (a = array sA /\ j = i) ->
                 ~ (a = array cA /\ (i * 3 <= j < i * 3 + 3)%nat) ->
                 get h' a j = get h a j) /\
    (forall a, a <> array sA -> a <> array cA -> h' !! a = h !! a).
Proof.
  intros Hsz Hi.
  destruct Hsz as (Hzs & Hcs & HsA & HcA).
  destruct (get_is_Some h zs i n Hzs Hi) as [s Hs].
  destruct (get_is_Some h cs (i * 3) (n * 3) Hcs ltac:(lia)) as [c0 Hc0].
  destruct (get_is_Some h cs (i * 3 + 1) (n * 3) Hcs ltac:(lia)) as [c1 Hc1].
  destruct (get_is_Some h cs (i * 3 + 2) (n * 3) Hcs ltac:(lia)) as [c2 Hc2].
  set (sc := scintillation time (rnd p) i s).
  set (h1 := save h (array sA) i (s * Rmax 0.3 sc)).
  set (h2 := save h1 (array cA) (i * 3) (Rmin 1 (c0 * (1 + colorShift sc)))).
  set (h3 := save h2 (array cA) (i * 3 + 1)
               (Rmin 1 (c1 * (1 - colorShift sc * 0.3)))).
  set (h4 := save h3 (array cA) (i * 3 + 2)
               (Rmin 1 (c2 * (1 - colorShift sc * 0.6)))).
  assert (G1 : get h1 cs (i * 3) = Some c0).
  { unfold h1. rewrite get_save_ne; [done | left; congruence]. }
  assert (G2 : get h2 cs (i * 3 + 1) = Some c1).
  { unfold h2, h1. rewrite !get_save_ne; [done | left; congruence | right; lia]. }
  assert (G3 : get h3 cs (i * 3 + 2) = Some c2).
  { unfold h3, h2, h1.
    rewrite !get_save_ne; [done | left; congruence | right; lia | right; lia]. }
  exists s, c0, c1, c2, h4. repeat split; try done.
  - unfold twinkleStar.
    rewrite (bind_Ok _ _ _ _ _ _ (load_get _ _ _ _ _ _ Hs)).
    rewrite (bind_Ok _ _ _ _ _ _ (Math_random_Ok _ _)).
    rewrite (bind_Ok _ _ _ _ _ _ (load_get _ _ _ _ _ _ Hs)).
    fold sc. fold h1.
    rewrite (bind_Ok _ _ _ _ _ _ (load_get _ _ _ _ _ _ G1)). fold h2.
    rewrite (bind_Ok _ _ _ _ _ _ (load_get _ _ _ _ _ _ G2)). fold h3.
    rewrite (bind_Ok _ _ _ _ _ _ (load_get _ _ _ _ _ _ G3)). fold h4.
    reflexivity.
  - unfold h4, h3, h2.
    rewrite !get_save_ne by (left; congruence).
    by apply (get_save_eq h _ _ _ n).
  - unfold h4, h3. rewrite !get_save_ne by (right; lia).
    apply (get_save_eq h1 _ _ _ (n * 3)); [|lia].
    unfold h1. by rewrite size_of_save.
  - unfold h4. rewrite !get_save_ne by (right; lia).
    apply (get_save_eq h2 _ _ _ (n * 3)); [|lia].
    unfold h2, h1. by rewrite !size_of_save.
  - apply (get_save_eq h3 _ _ _ (n * 3)); [|lia].
    unfold h3, h2, h1. by rewrite !size_of_save.
  - unfold h4, h3, h2, h1. by rewrite !size_of_save.
  - unfold h4, h3, h2, h1. by rewrite !size_of_save.
  - unfold h4, h3, h2, h1. by rewrite !size_of_save.
  - unfold h4, h3, h2, h1. by rewrite !size_of_save.
  - intros a j H1 H2. unfold h4, h3, h2, h1.
    rewrite !get_save_ne; first done.
    + destruct (decide (array sA = a)) as [<-|]; [right|by left].
      intros <-. by apply H1.
    + destruct (decide (array cA = a)) as [<-|]; [right|by left].
      intros <-. apply H2. split; [done|lia].
    + destruct (decide (array cA = a)) as [<-|]; [right|by left].
      intros <-. apply H2. split; [done|lia].
    + destruct (decide (array cA = a)) as [<-|]; [right|by left].
      intros <-. apply H2. split; [done|lia].
  - intros a H1 H2. unfold h4, h3, h2, h1.
    by rewrite !lookup_save_ne by congruence.
Qed.

(** [k] rounds from index [i]: the loop ends, draws [k] numbers, and each
    star [j] it visits gets the values computed from what the arrays held
    at [j] before the loop. *)
Lemma twinkleLoop_spec k : forall i h rnd p,
  sized n zs cs sA cA h -> (i + k <= n)%nat ->
  exists h',
    forLoop k i (twinkleStar time zs cs sA cA) h rnd p = Ok (h', (p + k)%nat) /\
    sized n zs cs sA cA h' /\
    (forall a, a <> array sA -> a <> array cA -> h' !! a = h !! a) /\
    (forall a j, ~ (a = array sA /\ (i <= j < i + k)%nat) ->
                 ~ (a = array cA /\ (i * 3 <= j < (i + k) * 3)%nat) ->
                 get h' a j = get h a j) /\
    (forall j s c0 c1 c2, (i <= j < i + k)%nat ->
       get h zs j = Some s ->
       get h cs (j * 3) = Some c0 ->
       get h cs (j * 3 + 1) = Some c1 ->
       get h cs (j * 3 + 2) = Some c2 ->
       let sc := scintillation time (rnd (p + (j - i))%nat) j s in
       get h' (array sA) j = Some (s * Rmax 0.3 sc) /\
       get h' (array cA) (j * 3) = Some (Rmin 1 (c0 * (1 + colorShift sc))) /\
       get h' (array cA) (j * 3 + 1)
         = Some (Rmin 1 (c1 * (1 - colorShift sc * 0.3))) /\
       get h' (array cA) (j * 3 + 2)
         = Some (Rmin 1 (c2 * (1 - colorShift sc * 0.6)))).
Proof.
  induction k as [|k IH]; intros i h rnd p Hsz Hik.
  - exists h. simpl. unfold ret. rewrite Nat.add_0_r.
    split; [done|split; [done|split; [done|split; [done|intros; lia]]]].
  - destruct (twinkleStar_spec h i rnd p Hsz ltac:(lia))
      as (s & c0 & c1 & c2 & h1 & Hs & Hc0 & Hc1 & Hc2 & Hrun & Ws & W0 & W1
          & W2 & Hsz1 & Hfr1 & Hoth1).
    destruct (IH (S i) h1 rnd (S p) Hsz1 ltac:(lia))
      as (h' & Hloop & Hsz' & Hoth & Hfr & Hval).
    exists h'. split; [|split; [done|split; [|split]]].
    + simpl. rewrite (bind_Ok _ _ _ _ _ _ Hrun). rewrite Hloop.
      f_equal. f_equal. lia.
    + intros a H1 H2. rewrite Hoth by done. by apply Hoth1.
    + intros a j H1 H2. rewrite Hfr.
      * apply Hfr1; intros [-> Hj]; [apply H1|apply H2]; split; try done; lia.
      * intros [-> Hj]. apply H1. split; [done|lia].
      * intros [-> Hj]. apply H2. split; [done|lia].
    + intros j s' c0' c1' c2' Hj Hs' Hc0' Hc1' Hc2' sc.
      destruct (decide (j = i)) as [->|Hne].
      * assert (s' = s) as -> by congruence.
        assert (c0' = c0) as -> by congruence.
        assert (c1' = c1) as -> by congruence.
        assert (c2' = c2) as -> by congruence.
        unfold sc. replace (p + (i - i))%nat with p by lia.
        rewrite !Hfr; first done.
        all: intros [E Hr]; first [lia | congruence].
      * assert (Hj' : (S i <= j < S i + k)%nat) by lia.
        unfold sc. replace (p + (j - i))%nat with (S p + (j - S i))%nat by lia.
        apply (Hval j s' c0' c1' c2' Hj').
        -- rewrite Hfr1; first done.
           ++ intros [_ ?]; lia.
           ++ intros [? _]; congruence.
        -- rewrite Hfr1; first done.
           ++ intros [? _]; congruence.
           ++ intros [_ ?]; lia.
        -- rewrite Hfr1; first done.
           ++ intros [? _]; congruence.
           ++ intros [_ ?]; lia.
        -- rewrite Hfr1; first done.
           ++ intros [? _]; congruence.
           ++ intros [_ ?]; lia.
Qed.
End TwinkleStar.

(** ** One frame *)

(** A frame on a mounted starfield: it ends, it draws one number per star,
    and it writes, for star [i], the values computed from the base size and
    the base colour the arrays held at [i] when the frame began. *)
Lemma useFrame_spec time sf g rnd p :
  wf_starfield sf g ->
  exists h',
    useFrame time sf rnd p
      = Ok (mkStarfield (count sf) h' (positions_ sf) (colors_ sf) (sizes_ sf)
              (magnitudes_ sf) (Some (dirty g)), (p + count sf)%nat) /\
    sized (count sf) (sizes_ sf) (colors_ sf)
      (attributes_size g) (attributes_color g) h' /\
    (forall a, a <> array (attributes_size g) ->
               a <> array (attributes_color g) -> h' !! a = store sf !! a) /\
    (forall i s c0 c1 c2, (i < count sf)%nat ->
       get (store sf) (sizes_ sf) i = Some s ->
       get (store sf) (colors_ sf) (i * 3) = Some c0 ->
       get (store sf) (colors_ sf) (i * 3 + 1) = Some c1 ->
       get (store sf) (colors_ sf) (i * 3 + 2) = Some c2 ->
       let sc := scintillation time (rnd (p + i)%nat) i s in
       get h' (array (attributes_size g)) i = Some (s * Rmax 0.3 sc) /\
       get h' (array (attributes_color g)) (i * 3)
         = Some (Rmin 1 (c0 * (1 + colorShift sc))) /\
       get h' (array (attributes_color g)) (i * 3 + 1)
         = Some (Rmin 1 (c1 * (1 - colorShift sc * 0.3))) /\
       get h' (array (attributes_color g)) (i * 3 + 2)
         = Some (Rmin 1 (c2 * (1 - colorShift sc * 0.6)))).
Proof.
  intros [Hcur Hsz H1 H2 H3 _ _ _].
  destruct (twinkleLoop_spec time (sizes_ sf) (colors_ sf) (attributes_size g)
              (attributes_color g) (count sf) H1 H2 H3 (count sf) 0%nat
              (store sf) rnd p Hsz ltac:(lia))
    as (h' & Hloop & Hsz' & Hoth & _ & Hval).
  exists h'. split; [|split; [done|split; [done|]]].
  - unfold useFrame. rewrite Hcur. by rewrite (bind_Ok _ _ _ _ _ _ Hloop).
  - intros i s c0 c1 c2 Hi Hs Hc0 Hc1 Hc2.
    specialize (Hval i s c0 c1 c2 ltac:(lia) Hs Hc0 Hc1 Hc2).
    by rewrite Nat.sub_0_r in Hval.
Qed.

(** Before the points are mounted, [ref.current] is unset and a frame does
    nothing. *)
Lemma useFrame_unmounted time sf rnd p :
  ref_current sf = None -> useFrame time sf rnd p = Ok (sf, p).
Proof. intros H. unfold useFrame. by rewrite H. Qed.

(** Every in-range entry of the colour attribute is one of the three
    channels of a star. *)
Lemma channel_of (j n : nat) :
  (j < n * 3)%nat ->
  exists i, (i < n)%nat /\ (j = i * 3 \/ j = i * 3 + 1 \/ j = i * 3 + 2)%nat.
Proof.
  intros Hj. exists (j / 3)%nat.
  pose proof (Nat.div_mod_eq j 3) as E.
  pose proof (Nat.mod_upper_bound j 3 ltac:(lia)) as B.
  split; [apply Nat.Div0.div_lt_upper_bound; lia | lia].
Qed.

Lemma get_lt h a j c n : size_of h a = Some n -> get h a j = Some c -> (j < n)%nat.
Proof.
  unfold size_of, get. destruct (h !! a) as [l|]; simpl; [|discriminate].
  intros [= <-] Hl. apply lookup_lt_is_Some_1. by exists c.
Qed.

(** A frame keeps a mounted starfield mounted. *)
Lemma useFrame_wf time sf g rnd p sf' q :
  wf_starfield sf g -> useFrame time sf rnd p = Ok (sf', q) ->
  wf_starfield sf' (dirty g).
Proof.
  intros Hwf Hrun.
  destruct (useFrame_spec time sf g rnd p Hwf) as (h' & Hrun' & Hsz' & Hoth & Hval).
  rewrite Hrun' in Hrun. injection Hrun as <- <-.
  destruct Hwf as [Hcur Hsz H1 H2 H3 H4 H5 H6].
  constructor; simpl; try done.
  intros j c Hj.
  destruct (decide (colors_ sf = array (attributes_color g))) as [E|Hne].
  - destruct Hsz' as (_ & Hcs' & _ & _).
    destruct (channel_of j (count sf) (get_lt _ _ _ _ _ Hcs' Hj))
      as (i & Hi & Hch).
    destruct Hsz as (Hzs & Hcs & _ & _).
    destruct (get_is_Some _ _ i _ Hzs Hi) as [s Hs].
    destruct (get_is_Some _ _ (i * 3) _ Hcs ltac:(lia)) as [c0 Hc0].
    destruct (get_is_Some _ _ (i * 3 + 1) _ Hcs ltac:(lia)) as [c1 Hc1].
    destruct (get_is_Some _ _ (i * 3 + 2) _ Hcs ltac:(lia)) as [c2 Hc2].
    destruct (Hval i s c0 c1 c2 Hi Hs Hc0 Hc1 Hc2) as (_ & V0 & V1 & V2).
    rewrite <- E in V0, V1, V2.
    destruct Hch as [-> | [-> | ->]].
    + rewrite V0 in Hj. injection Hj as <-. apply Rmin_l.
    + rewrite V1 in Hj. injection Hj as <-. apply Rmin_l.
    + rewrite V2 in Hj. injection Hj as <-. apply Rmin_l.
  - apply (H6 j). unfold get in *. by rewrite Hoth in Hj.
Qed.

(** Mounting buffers of the right lengths, with colours at most 1, gives a
    mounted starfield, whether the attributes share the arrays or not. *)
Lemma mount_wf shared n bufs :
  length (sizes bufs) = n -> length (colors bufs) = (n * 3)%nat ->
  Forall (fun c => c <= 1) (colors bufs) ->
  wf_starfield (mount shared n bufs) (mounted shared).
Proof.
  intros Hs Hc Hle.
  destruct shared; constructor; simpl; try done; try (split; done).
  - unfold sized, size_of; simpl.
    rewrite !(lookup_insert_ne _ 3%nat) by done.
    rewrite !(lookup_insert_ne _ 2%nat 1%nat) by done.
    rewrite !lookup_insert_eq. simpl. by rewrite Hs, Hc.
  - intros j c. unfold get; simpl.
    rewrite !(lookup_insert_ne _ 3%nat) by done.
    rewrite !(lookup_insert_ne _ 2%nat 1%nat) by done.
    rewrite !lookup_insert_eq. intros Hj.
    by apply (proj1 (Forall_lookup _ _) Hle j).
  - unfold sized, size_of; simpl.
    rewrite !(lookup_insert_ne _ 6%nat 2%nat), !(lookup_insert_ne _ 6%nat 1%nat),
      !(lookup_insert_ne _ 6%nat 5%nat) by done.
    rewrite !(lookup_insert_ne _ 5%nat 2%nat), !(lookup_insert_ne _ 5%nat 1%nat),
      !(lookup_insert_ne _ 4%nat) by done.
    rewrite !(lookup_insert_ne _ 3%nat) by done.
    rewrite !(lookup_insert_ne _ 2%nat 1%nat) by done.
    rewrite !lookup_insert_eq. simpl. by rewrite Hs, Hc.
  - intros j c. unfold get; simpl.
    rewrite !(lookup_insert_ne _ 6%nat), !(lookup_insert_ne _ 5%nat),
      !(lookup_insert_ne _ 4%nat), !(lookup_insert_ne _ 3%nat),
      !(lookup_insert_ne _ 2%nat) by done.
    rewrite !lookup_insert_eq. intros Hj.
    by apply (proj1 (Forall_lookup _ _) Hle j).
Qed.

(** ** The twinkle factor *)

Lemma twinkleIntensity_faint s : s <= 0.5 -> twinkleIntensity s = 0.
Proof. intros H. unfold twinkleIntensity. apply Rmax_left. nra. Qed.

Lemma scintillation_faint time r i s : s <= 0.5 -> scintillation time r i s = 1.
Proof.
  intros H. unfold scintillation. rewrite (twinkleIntensity_faint s H). lra.
Qed.

(** Two draws, two factors: at time 1, for star 0 of base size 3/2, the
    draw 0 gives [sin 1 * 0.3 + 1] and the draw 1/6 gives
    [sin (3/2) * 0.3 + 1]. *)
Lemma scintillation_two_draws :
  scintillation 1 0 0 (3/2) < scintillation 1 (1/6) 0 (3/2) /\
  1 < scintillation 1 0 0 (3/2).
Proof.
  unfold scintillation, twinkleIntensity. simpl INR.
  replace (1 * (1 + 0 * 3) + 0 * 0.123) with 1 by lra.
  replace (1 * (1 + 1 / 6 * 3) + 0 * 0.123) with (3/2) by lra.
  replace ((3 / 2 - 0.5) * 0.3) with 0.3 by lra.
  rewrite Rmax_right by lra.
  pose proof PI2_3_2 as HPI.
  assert (H1 : sin 1 < sin (3/2)) by (apply sin_increasing_1; lra).
  assert (H2 : 0 < sin 1) by (apply sin_gt_0; lra).
  lra.
Qed.

(** ** A frame depends on the oracle through the draws it makes *)

Lemma twinkleStar_draw time zs cs sA cA i h rnd1 p1 rnd2 p2 :
  rnd1 p1 = rnd2 p2 ->
  (exists h', twinkleStar time zs cs sA cA i h rnd1 p1 = Ok (h', S p1) /\
              twinkleStar time zs cs sA cA i h rnd2 p2 = Ok (h', S p2)) \/
  (twinkleStar time zs cs sA cA i h rnd1 p1 = NotANumber /\
   twinkleStar time zs cs sA cA i h rnd2 p2 = NotANumber).
Proof.
  intros E. unfold twinkleStar, bind, load, Math_random, ret, nan.
  destruct (h !! zs) as [l|]; [|by right].
  destruct (l !! i) as [s|]; [|by right].
  rewrite E.
  repeat (case_match; simplify_eq; try (by right)).
  left. eauto.
Qed.

Lemma twinkleLoop_draws time zs cs sA cA rnd1 rnd2 k : forall i h p1 p2,
  (forall j, (j < k)%nat -> rnd1 (p1 + j)%nat = rnd2 (p2 + j)%nat) ->
  (exists h',
     forLoop k i (twinkleStar time zs cs sA cA) h rnd1 p1 = Ok (h', (p1 + k)%nat) /\
     forLoop k i (twinkleStar time zs cs sA cA) h rnd2 p2 = Ok (h', (p2 + k)%nat)) \/
  (forLoop k i (twinkleStar time zs cs sA cA) h rnd1 p1 = NotANumber /\
   forLoop k i (twinkleStar time zs cs sA cA) h rnd2 p2 = NotANumber).
Proof.
  induction k as [|k IH]; intros i h p1 p2 Hag.
  - left. exists h. simpl. unfold ret. by rewrite !Nat.add_0_r.
  - assert (E : rnd1 p1 = rnd2 p2).
    { specialize (Hag 0%nat ltac:(lia)). by rewrite !Nat.add_0_r in Hag. }
    simpl.
    destruct (twinkleStar_draw time zs cs sA cA i h rnd1 p1 rnd2 p2 E)
      as [(h1 & R1 & R2) | [R1 R2]].
    + rewrite (bind_Ok _ _ _ _ _ _ R1), (bind_Ok _ _ _ _ _ _ R2).
      destruct (IH (S i) h1 (S p1) (S p2)) as [(h' & L1 & L2) | [L1 L2]].
      * intros j Hj. specialize (Hag (S j) ltac:(lia)).
        by rewrite !Nat.add_succ_r in Hag.
      * left. exists h'. rewrite L1, L2. split; f_equal; f_equal; lia.
      * right. by rewrite L1, L2.
    + right. unfold bind. by rewrite R1, R2.
Qed.

Lemma oneStar_wf s : wf_starfield (oneStar s) (mounted true).
Proof.
  apply mount_wf; [reflexivity | reflexivity |].
  repeat constructor; simpl; lra.
Qed.

Lemma oneStar_get s :
  get (store (oneStar s)) (sizes_ (oneStar s)) 0 = Some s /\
  get (store (oneStar s)) (colors_ (oneStar s)) 0 = Some 0.95 /\
  get (store (oneStar s)) (colors_ (oneStar s)) 1 = Some 0.8 /\
  get (store (oneStar s)) (colors_ (oneStar s)) 2 = Some 0.65.
Proof.
  unfold get, oneStar, mount; simpl.
  rewrite !(lookup_insert_ne _ 3%nat) by done.
  rewrite !(lookup_insert_ne _ 2%nat 1%nat) by done.
  by rewrite !lookup_insert_eq.
Qed.

(** ** C1: the twinkle and the random draw *)

(** C1, as stated, fails: with the same time (1), the same star (index 0), the
    same base size (3/2) and the same base colour, the draw 0 and the draw 1/6
    of [Math.random()] give two different scintillation factors, and the two
    frames leave different starfields. *)
Lemma twinkle_depends_on_the_draw :
  scintillation 1 0 0 (3/2) <> scintillation 1 (1/6) 0 (3/2) /\
  useFrame 1 (oneStar (3/2)) (fun _ => 0) 0%nat
    <> useFrame 1 (oneStar (3/2)) (fun _ => 1/6) 0%nat.
Proof.
  destruct scintillation_two_draws as [Hlt Hgt].
  split; [lra|].
  destruct (oneStar_get (3/2)) as (Gs & G0 & G1 & G2).
  destruct (useFrame_spec 1 _ _ (fun _ => 0) 0%nat (oneStar_wf (3/2)))
    as (h1 & R1 & _ & _ & V1).
  destruct (useFrame_spec 1 _ _ (fun _ => 1/6) 0%nat (oneStar_wf (3/2)))
    as (h2 & R2 & _ & _ & V2).
  destruct (V1 0%nat _ _ _ _ ltac:(simpl; lia) Gs G0 G1 G2) as (W1 & _).
  destruct (V2 0%nat _ _ _ _ ltac:(simpl; lia) Gs G0 G1 G2) as (W2 & _).
  rewrite R1, R2. intros [= E]. rewrite E in W1. rewrite W1 in W2.
  injection W2 as W2. simpl in W2.
  rewrite !Rmax_right in W2 by lra. lra.
Qed.

(** C1, amended: a frame is a function of the elapsed time, of the starfield
    (index, base size and base colour of each star) and of the numbers
    [Math.random()] returns during the frame, one per star.  Two frames on the
    same starfield at the same time, under oracles that return the same
    numbers for the draws of the frame, both end and leave the same
    starfield. *)
Theorem twinkle_deterministic_given_the_draws time sf g rnd1 rnd2 p1 p2 :
  wf_starfield sf g ->
  (forall j, (j < count sf)%nat -> rnd1 (p1 + j)%nat = rnd2 (p2 + j)%nat) ->
  exists sf',
    useFrame time sf rnd1 p1 = Ok (sf', (p1 + count sf)%nat) /\
    useFrame time sf rnd2 p2 = Ok (sf', (p2 + count sf)%nat).
Proof.
  intros Hwf Hag.
  destruct (useFrame_spec time sf g rnd1 p1 Hwf) as (h1 & R1 & _).
  unfold useFrame in *. rewrite (wf_current _ _ Hwf) in *.
  destruct (twinkleLoop_draws time (sizes_ sf) (colors_ sf) (attributes_size g)
              (attributes_color g) rnd1 rnd2 (count sf) 0%nat (store sf) p1 p2 Hag)
    as [(h' & L1 & L2) | [L1 _]].
  - eexists. rewrite (bind_Ok _ _ _ _ _ _ L1), (bind_Ok _ _ _ _ _ _ L2).
    split; reflexivity.
  - unfold bind in R1. by rewrite L1 in R1.
Qed.

Lemma twinkle_deterministic_given_the_draws_witness :
  exists sf',
    useFrame 1 (oneStar (3/2)) (fun _ => 0) 0%nat
      = Ok (sf', (0 + count (oneStar (3/2)))%nat) /\
    useFrame 1 (oneStar (3/2)) (fun n => if decide (n = 5%nat) then 0 else 1/2) 5%nat
      = Ok (sf', (5 + count (oneStar (3/2)))%nat).
Proof.
  apply (twinkle_deterministic_given_the_draws 1 (oneStar (3/2)) (mounted true)).
  - apply oneStar_wf.
  - simpl. intros j Hj. assert (j = 0%nat) as -> by lia. reflexivity.
Defined.

(** ** C6: larger stars twinkle at least as much *)

(** C6: the twinkle intensity [Math.max(0, (sizes[i] - 0.5) * 0.3)] is
    non-decreasing in the base size. *)
Theorem twinkleIntensity_monotone s1 s2 :
  s1 <= s2 -> twinkleIntensity s1 <= twinkleIntensity s2.
Proof.
  intros H. unfold twinkleIntensity. apply Rle_max_compat_l. nra.
Qed.

Lemma twinkleIntensity_monotone_witness :
  twinkleIntensity 0.3 <= twinkleIntensity 4.
Proof. apply twinkleIntensity_monotone. lra. Defined.

(** ** C7: a frame writes to the size and colour attributes only *)

(** C7: a frame on a mounted starfield ends and leaves every array other
    than the arrays of the size attribute and of the colour attribute as it
    was, the position buffer and the magnitude buffer among them; the
    position attribute, the four buffers the callback closes over and the
    count are the same after the frame. *)
Theorem frame_writes_size_and_color_only time sf g rnd p :
  wf_starfield sf g ->
  exists sf',
    useFrame time sf rnd p = Ok (sf', (p + count sf)%nat) /\
    store sf' !! positions_ sf = store sf !! positions_ sf /\
    store sf' !! magnitudes_ sf = store sf !! magnitudes_ sf /\
    (forall a, a <> array (attributes_size g) ->
               a <> array (attributes_color g) ->
               store sf' !! a = store sf !! a) /\
    (attributes_position <$> ref_current sf')
      = (attributes_position <$> ref_current sf) /\
    count sf' = count sf /\ positions_ sf' = positions_ sf /\
    colors_ sf' = colors_ sf /\ sizes_ sf' = sizes_ sf /\
    magnitudes_ sf' = magnitudes_ sf.
Proof.
  intros Hwf.
  destruct (useFrame_spec time sf g rnd p Hwf) as (h' & R & _ & Hoth & _).
  eexists. split; [exact R|]. simpl.
  destruct (wf_positions _ _ Hwf) as [P1 P2].
  destruct (wf_magnitudes _ _ Hwf) as [M1 M2].
  rewrite (wf_current _ _ Hwf). simpl.
  repeat split; auto.
Qed.

Lemma frame_writes_size_and_color_only_witness :
  exists sf',
    useFrame 1 (oneStar (3/2)) (fun _ => 0) 0%nat
      = Ok (sf', (0 + count (oneStar (3/2)))%nat) /\
    store sf' !! 0%nat = Some [50; 0; 0] /\
    store sf' !! 3%nat = Some [0.5].
Proof.
  destruct (frame_writes_size_and_color_only 1 (oneStar (3/2)) (mounted true)
              (fun _ => 0) 0%nat (oneStar_wf (3/2)))
    as (sf' & R & P & M & _).
  exists sf'. split; [exact R|]. split.
  - etransitivity; [exact P|]. reflexivity.
  - etransitivity; [exact M|]. reflexivity.
Defined.

(** ** C10: stars of base size at most 0.5 do not twinkle *)

(** C10: for a star [i] of a mounted starfield whose base size is at most
    0.5, the twinkle intensity is 0 and the scintillation factor is 1 whatever
    the time and the draw; the frame ends, the size it writes is the base
    size and the three colour channels it writes are the base colour. *)
Theorem faint_stars_do_not_twinkle time sf g rnd p i base c0 c1 c2 :
  wf_starfield sf g -> (i < count sf)%nat ->
  get (store sf) (sizes_ sf) i = Some base ->
  get (store sf) (colors_ sf) (i * 3) = Some c0 ->
  get (store sf) (colors_ sf) (i * 3 + 1) = Some c1 ->
  get (store sf) (colors_ sf) (i * 3 + 2) = Some c2 ->
  base <= 0.5 ->
  twinkleIntensity base = 0 /\
  (forall t r, scintillation t r i base = 1) /\
  exists sf',
    useFrame time sf rnd p = Ok (sf', (p + count sf)%nat) /\
    get (store sf') (array (attributes_size g)) i = Some base /\
    get (store sf') (array (attributes_color g)) (i * 3) = Some c0 /\
    get (store sf') (array (attributes_color g)) (i * 3 + 1) = Some c1 /\
    get (store sf') (array (attributes_color g)) (i * 3 + 2) = Some c2.
Proof.
  intros Hwf Hi Hs Hc0 Hc1 Hc2 Hb.
  split; [by apply twinkleIntensity_faint|].
  split; [intros; by apply scintillation_faint|].
  destruct (useFrame_spec time sf g rnd p Hwf) as (h' & R & _ & _ & V).
  destruct (V i base c0 c1 c2 Hi Hs Hc0 Hc1 Hc2) as (W & W0 & W1 & W2).
  rewrite (scintillation_faint _ _ _ _ Hb) in W, W0, W1, W2.
  unfold colorShift in *.
  pose proof (wf_colors_le_1 _ _ Hwf _ _ Hc0) as L0.
  pose proof (wf_colors_le_1 _ _ Hwf _ _ Hc1) as L1.
  pose proof (wf_colors_le_1 _ _ Hwf _ _ Hc2) as L2.
  eexists. split; [exact R|]. simpl.
  rewrite W, W0, W1, W2.
  rewrite Rmax_right by lra.
  rewrite !Rmin_right by lra.
  repeat split; f_equal; lra.
Qed.

Lemma faint_stars_do_not_twinkle_witness :
  twinkleIntensity 0.12 = 0 /\
  (forall t r, scintillation t r 0 0.12 = 1) /\
  exists sf',
    useFrame 1 (oneStar 0.12) (fun _ => 0) 0%nat
      = Ok (sf', (0 + count (oneStar 0.12))%nat) /\
    get (store sf') 2 0 = Some 0.12 /\
    get (store sf') 1 0 = Some 0.95 /\
    get (store sf') 1 1 = Some 0.8 /\
    get (store sf') 1 2 = Some 0.65.
Proof.
  apply (faint_stars_do_not_twinkle 1 (oneStar 0.12) (mounted true)
           (fun _ => 0) 0%nat 0%nat 0.12 0.95 0.8 0.65).
  - apply oneStar_wf.
  - simpl. lia.
  - apply oneStar_get.
  - apply oneStar_get.
  - apply oneStar_get.
  - apply oneStar_get.
  - lra.
Defined.

(** ** Star generation: one round *)

Lemma exp_nonpos_le_1 x : x <= 0 -> exp x <= 1.
Proof.
  intros [H| ->]; [|rewrite exp_0; lra].
  rewrite <- exp_0. left. by apply exp_increasing.
Qed.

(** The skip test always answers, after two or three draws. *)
Lemma skipStar_Ok rnd p :
  exists b q, skipStar rnd p = Ok (b, q) /\ (p < q)%nat.
Proof.
  unfold skipStar, bind, Math_random, ret.
  destruct (bool_decide _); eexists _, _; split; try reflexivity; lia.
Qed.

(** A second draw below 0.1 places the star. *)
Lemma skipStar_places rnd p :
  rnd (S p) < 0.1 -> skipStar rnd p = Ok (false, S (S p)).
Proof.
  intros H. unfold skipStar, bind, Math_random, ret.
  rewrite bool_decide_eq_true_2; [done|].
  pose proof (exp_pos (- Rabs ((rnd p - 0.5) * PI) * 3)). lra.
Qed.

(** A second draw of 0.4 or more and a third above 0.3 skip it. *)
Lemma skipStar_skips rnd p :
  0.4 <= rnd (S p) -> 0.3 < rnd (S (S p)) ->
  skipStar rnd p = Ok (true, S (S (S p))).
Proof.
  intros H1 H2. unfold skipStar, bind, Math_random, ret.
  rewrite bool_decide_eq_false_2.
  - by rewrite bool_decide_eq_true_2.
  - assert (exp (- Rabs ((rnd p - 0.5) * PI) * 3) <= 1).
    { apply exp_nonpos_le_1. pose proof (Rabs_pos ((rnd p - 0.5) * PI)). lra. }
    lra.
Qed.

Lemma starRadius_spec count i rnd p :
  unit_interval rnd ->
  exists radius,
    starRadius count i rnd p = Ok (radius, S p) /\ inTier count i radius.
Proof.
  intros Hr. destruct (Hr p) as [H0 H1].
  unfold starRadius, inTier, bind, Math_random, ret.
  repeat case_decide; eexists; (split; [reflexivity | lra]).
Qed.

Lemma starSize_spec t magnitude rnd p :
  unit_interval rnd -> 0 < size t ->
  exists s, starSize t magnitude rnd p = Ok (s, S p) /\ 0 < s.
Proof.
  intros Hr Ht. destruct (Hr p) as [H0 H1].
  unfold starSize, bind, Math_random, ret.
  repeat case_decide; eexists; (split; [reflexivity | nra]).
Qed.

Lemma Math_acos_Ok x rnd p :
  -1 <= x <= 1 -> Math_acos x rnd p = Ok (acos x, p).
Proof.
  intros [H1 H2]. unfold Math_acos. by rewrite !decide_True by done.
Qed.

(** The selection loop returns an entry of the table (or the default). *)
Lemma selectLoop_elem types : forall cumulative rand d,
  selectLoop types cumulative rand d = d \/
  selectLoop types cumulative rand d ∈ types.
Proof.
  induction types as [|t types IH]; intros c rand d; simpl; [by left|].
  case_decide; [right; left|].
  destruct (IH (c + weight t) rand d) as [->|Hin]; [by left|right; by right].
Qed.

Lemma selectStellarType_elem rand : selectStellarType rand ∈ stellarTypes.
Proof.
  unfold selectStellarType.
  destruct (selectLoop_elem stellarTypes 0 rand (stellarTypes !!! 0%nat))
    as [->|H]; [|done].
  simpl. left.
Qed.

(** Every class of the table has a positive size and channels in [0.4, 1]. *)
Lemma stellarTypes_ranges t :
  t ∈ stellarTypes ->
  0 < size t /\ 0.4 <= THREE.r (color t) <= 1 /\
  0.4 <= THREE.g (color t) <= 1 /\ 0.4 <= THREE.b (color t) <= 1.
Proof.
  unfold stellarTypes. rewrite !elem_of_cons, elem_of_nil.
  intros Ht. decompose [or] Ht; subst; simpl; try lra; done.
Qed.

(** The distance of a point given in spherical coordinates. *)
Lemma spherical_distance radius theta phi :
  0 <= radius ->
  sqrt (radius * sin phi * cos theta * (radius * sin phi * cos theta)
        + radius * sin phi * sin theta * (radius * sin phi * sin theta)
        + radius * cos phi * (radius * cos phi)) = radius.
Proof.
  intros H.
  pose proof (sin2_cos2 theta) as Ht. pose proof (sin2_cos2 phi) as Hp.
  unfold Rsqr in *.
  replace (_ + _ + _) with
    (radius * radius *
       (sin phi * sin phi * (sin theta * sin theta + cos theta * cos theta)
        + cos phi * cos phi)) by ring.
  rewrite Ht, Rmult_1_r, Hp, Rmult_1_r. by apply sqrt_square.
Qed.

(** A placed star: seven draws, the same lengths, star [i] written and the
    other stars as they were. *)
Lemma placeStar_spec count i bufs rnd p :
  unit_interval rnd -> starBuffersOf count bufs -> (i < count)%nat ->
  exists bufs',
    placeStar count i bufs rnd p = Ok (bufs', (p + 7)%nat) /\
    starBuffersOf count bufs' /\
    starPlaced rnd count bufs' i /\
    (forall j, j <> i -> starPlaced rnd count bufs j ->
               starPlaced rnd count bufs' j).
Proof.
  intros Hr (Lp & Lc & Ls & Lm) Hi.
  destruct (starRadius_spec count i rnd p Hr) as (radius & Hrad & Htier).
  assert (Hrad0 : 0 <= radius).
  { unfold inTier in Htier. repeat case_decide; lra. }
  pose proof (Hr (S (S p))) as Hphi.
  assert (Hacos : Math_acos (rnd (S (S p)) * 2 - 1) rnd (S (S (S p)))
                  = Ok (acos (rnd (S (S p)) * 2 - 1), S (S (S p)))).
  { apply Math_acos_Ok. lra. }
  set (t := selectStellarType (rnd (S (S (S p))))).
  destruct (stellarTypes_ranges t (selectStellarType_elem _))
    as (Hsize & HR & HG & HB).
  destruct (starSize_spec t (rnd (S (S (S (S p))))) rnd (S (S (S (S (S p))))) Hr Hsize)
    as (s & Hs & Hs0).
  pose proof (Hr (S (S (S (S (S (S p))))))) as Hcv.
  eexists. split; [|split; [|split]].
  - unfold placeStar.
    rewrite (bind_Ok _ _ _ _ _ _ Hrad).
    rewrite (bind_Ok _ _ _ _ _ _ (Math_random_Ok _ _)).
    rewrite (bind_Ok _ _ _ _ _ _ (Math_random_Ok _ _)).
    rewrite (bind_Ok _ _ _ _ _ _ Hacos).
    rewrite (bind_Ok _ _ _ _ _ _ (Math_random_Ok _ _)).
    rewrite (bind_Ok _ _ _ _ _ _ (Math_random_Ok _ _)).
    fold t. rewrite (bind_Ok _ _ _ _ _ _ Hs).
    rewrite (bind_Ok _ _ _ _ _ _ (Math_random_Ok _ _)).
    unfold ret. f_equal. f_equal. lia.
  - unfold starBuffersOf; simpl. by rewrite !length_insert.
  - constructor; simpl.
    + eexists _, _, _. split; [|split; [|split]].
      * rewrite !list_lookup_insert_ne by lia.
        apply list_lookup_insert_eq. lia.
      * rewrite !list_lookup_insert_ne by lia.
        apply list_lookup_insert_eq. rewrite length_insert. lia.
      * apply list_lookup_insert_eq. rewrite !length_insert. lia.
      * by rewrite spherical_distance.
    + intros k Hk.
      assert (k = 0 \/ k = 1 \/ k = 2)%nat as [-> | [-> | ->]] by lia.
      * eexists. split.
        -- rewrite Nat.add_0_r. rewrite !list_lookup_insert_ne by lia.
           apply list_lookup_insert_eq. lia.
        -- split; [|apply Rmin_l]. apply Rmin_glb_lt; nra.
      * eexists. split.
        -- rewrite !list_lookup_insert_ne by lia.
           apply list_lookup_insert_eq. rewrite length_insert. lia.
        -- split; [|apply Rmin_l]. apply Rmin_glb_lt; nra.
      * eexists. split.
        -- apply list_lookup_insert_eq. rewrite !length_insert. lia.
        -- split; [|apply Rmin_l]. apply Rmin_glb_lt; nra.
    + exists s. split; [|done]. apply list_lookup_insert_eq. lia.
    + eexists. apply list_lookup_insert_eq. lia.
  - intros j Hj [Pp Pc Ps Pm]. constructor; simpl.
    + destruct Pp as (x & y & z & Hx & Hy & Hz & Hd).
      exists x, y, z. by rewrite !list_lookup_insert_ne by lia.
    + intros k Hk. destruct (Pc k Hk) as (c & Hc & Hc01).
      exists c. by rewrite !list_lookup_insert_ne by lia.
    + destruct Ps as (s' & Hs' & Hs'0). exists s'.
      by rewrite list_lookup_insert_ne by lia.
    + destruct Pm as (q & Hq). exists q.
      by rewrite list_lookup_insert_ne by lia.
Qed.

(** ** Star generation: the loop *)

(** When the loop returns, every star is written. *)
Lemma starLoop_placed rnd count fuel : forall i bufs p bufs' q,
  unit_interval rnd -> starBuffersOf count bufs ->
  (forall j, (j < i)%nat -> starPlaced rnd count bufs j) ->
  starLoop fuel count i bufs rnd p = Ok (bufs', q) ->
  starBuffersOf count bufs' /\
  (forall j, (j < count)%nat -> starPlaced rnd count bufs' j).
Proof.
  induction fuel as [|fuel IH]; intros i bufs p bufs' q Hr Hlen Hdone; simpl.
  - case_decide as Hi; [discriminate|].
    intros [= <- <-]. split; [done|]. intros j Hj. apply Hdone. lia.
  - case_decide as Hi.
    + intros Hrun. apply bind_inv_Ok in Hrun as (skip & p1 & _ & Hrun).
      destruct skip.
      * by apply (IH i bufs p1 bufs' q).
      * apply bind_inv_Ok in Hrun as (bufs1 & p2 & Hplace & Hrun).
        destruct (placeStar_spec count i bufs rnd p1 Hr Hlen Hi)
          as (bufs1' & Hplace' & Hlen1 & Hi1 & Hothers).
        rewrite Hplace' in Hplace. injection Hplace as <- <-.
        apply (IH (S i) bufs1' (p1 + 7)%nat bufs' q); try done.
        intros j Hj. destruct (decide (j = i)) as [->|Hne]; [done|].
        apply Hothers; [done|]. apply Hdone. lia.
    + intros [= <- <-]. split; [done|]. intros j Hj. apply Hdone. lia.
Qed.

(** No run of the loop meets a [NaN]. *)
Lemma starLoop_no_NaN rnd count fuel : forall i bufs p,
  unit_interval rnd -> starBuffersOf count bufs ->
  starLoop fuel count i bufs rnd p <> NotANumber.
Proof.
  induction fuel as [|fuel IH]; intros i bufs p Hr Hlen; simpl.
  - by case_decide.
  - case_decide as Hi; [|done].
    destruct (skipStar_Ok rnd p) as (skip & p1 & Hskip & _).
    rewrite (bind_Ok _ _ _ _ _ _ Hskip). destruct skip; [by apply IH|].
    destruct (placeStar_spec count i bufs rnd p1 Hr Hlen Hi)
      as (bufs1 & Hplace & Hlen1 & _).
    rewrite (bind_Ok _ _ _ _ _ _ Hplace). by apply IH.
Qed.

(** Under an oracle that lets every star through after finitely many
    rounds, the loop returns once it has fuel enough. *)
Lemma starLoop_ends rnd count :
  unit_interval rnd -> (forall p, accepts rnd p) ->
  forall k i bufs p, (i + k = count)%nat -> starBuffersOf count bufs ->
  exists fuel bufs' q, starLoop fuel count i bufs rnd p = Ok (bufs', q).
Proof.
  intros Hr Hacc. induction k as [|k IH]; intros i bufs p Hik Hlen.
  - exists 0%nat, bufs, p. simpl. by rewrite decide_False by lia.
  - assert (Hi : (i < count)%nat) by lia.
    induction (Hacc p) as [p p1 Hskip | p p1 Hskip _ IHacc].
    + destruct (placeStar_spec count i bufs rnd p1 Hr Hlen Hi)
        as (bufs1 & Hplace & Hlen1 & _).
      destruct (IH (S i) bufs1 (p1 + 7)%nat ltac:(lia) Hlen1)
        as (fuel & bufs' & q & Hrun).
      exists (S fuel), bufs', q. simpl. rewrite decide_True by done.
      rewrite (bind_Ok _ _ _ _ _ _ Hskip).
      by rewrite (bind_Ok _ _ _ _ _ _ Hplace).
    + destruct IHacc as (fuel & bufs' & q & Hrun).
      exists (S fuel), bufs', q. simpl. rewrite decide_True by done.
      by rewrite (bind_Ok _ _ _ _ _ _ Hskip).
Qed.

Lemma Float32Array_buffers count :
  starBuffersOf count
    (mkStarBuffers (Float32Array (count * 3)) (Float32Array (count * 3))
       (Float32Array count) (Float32Array count)).
Proof. unfold starBuffersOf, Float32Array; simpl. by rewrite !length_replicate. Qed.

(** The oracle that always returns 0 places every star at once. *)
Lemma zero_oracle :
  unit_interval (fun _ => 0) /\ forall p, accepts (fun _ => 0) p.
Proof.
  split; [intros n; lra|].
  intros p. eapply accepts_now. apply skipStar_places. lra.
Qed.

(** The oracle that always returns 0.99 skips every round. *)
Lemma starLoop_skips_forever count fuel : forall i bufs p,
  (i < count)%nat ->
  starLoop fuel count i bufs (fun _ => 0.99) p = OutOfFuel.
Proof.
  induction fuel as [|fuel IH]; intros i bufs p Hi; simpl;
    rewrite decide_True by done; [done|].
  rewrite (bind_Ok _ _ _ _ _ _ (skipStar_skips (fun _ => 0.99) p
             ltac:(lra) ltac:(lra))).
  by apply IH.
Qed.

Lemma placed_colors_range rnd count bufs :
  starBuffersOf count bufs ->
  (forall i, (i < count)%nat -> starPlaced rnd count bufs i) ->
  forall j c, colors bufs !! j = Some c -> 0 < c <= 1.
Proof.
  intros (_ & Lc & _ & _) Hall j c Hj.
  assert (Hlt : (j < count * 3)%nat).
  { rewrite <- Lc. apply lookup_lt_is_Some_1. by exists c. }
  destruct (channel_of j count Hlt) as (i & Hi & Hch).
  destruct (Hall i Hi) as [_ Pc _ _].
  destruct Hch as [-> | [-> | ->]].
  - destruct (Pc 0%nat ltac:(lia)) as (c' & Hc' & Hr).
    rewrite Nat.add_0_r in Hc'. congruence.
  - destruct (Pc 1%nat ltac:(lia)) as (c' & Hc' & Hr). congruence.
  - destruct (Pc 2%nat ltac:(lia)) as (c' & Hc' & Hr). congruence.
Qed.

Lemma generateStars_placed fuel count rnd p bufs q :
  unit_interval rnd ->
  generateStars fuel count rnd p = Ok (bufs, q) ->
  starBuffersOf count bufs /\
  (forall i, (i < count)%nat -> starPlaced rnd count bufs i).
Proof.
  intros Hr Hrun.
  apply (starLoop_placed rnd count fuel 0%nat _ p bufs q Hr
           (Float32Array_buffers count)); [|exact Hrun].
  intros j Hj. lia.
Qed.

(** Every starfield the component goes through is a mounted one. *)
Lemma reachable_wf sf : reachable sf -> exists g, wf_starfield sf g.
Proof.
  induction 1 as [shared fuel n rnd p bufs q Hr Hgen
                 | time sf rnd p sf' q _ [g Hwf] Hrun].
  - destruct (generateStars_placed _ _ _ _ _ _ Hr Hgen) as [Hlen Hall].
    exists (mounted shared). apply mount_wf.
    + apply Hlen.
    + apply Hlen.
    + apply Forall_lookup. intros j c Hj.
      by apply (placed_colors_range rnd n bufs Hlen Hall j c).
  - exists (dirty g). by apply (useFrame_wf time sf g rnd p sf' q).
Qed.

(** The loop has no bound on its rounds: under the oracle that always
    returns 0.99 every round of the first star is skipped, whatever the
    fuel.  (Such sequences of draws form a null set, see below.) *)
Lemma retry_may_never_end :
  unit_interval (fun _ => 0.99) /\
  forall fuel p, generateStars fuel 1 (fun _ => 0.99) p = OutOfFuel.
Proof.
  split; [intros n; lra|].
  intros fuel p. unfold generateStars. apply starLoop_skips_forever. lia.
Qed.

(** ** C5: the weights of the classes *)

Local Ltac selected k :=
  exists k; eexists; split; [reflexivity|]; split; [reflexivity|];
  unfold cumulativeWeight; simpl; split; [lra | first [by left | right; lra]].

(** C5: the eight weights are 0.75, 0.12, 0.08, 0.03, 0.015, 0.003, 0.001 and
    0.001; their sum is 1, and the sum the script accumulates in binary64 is
    also exactly 1.0.  So the cumulative intervals cover the unit interval:
    every [rand] in [0, 1] is selected by the [break] of the class [k] with
    [cumulative(k) < rand <= cumulative(k + 1)] ([rand = 0] by the first). *)
Theorem stellar_weights_sum_to_one :
  weight <$> stellarTypes
    = [0.75; 0.12; 0.08; 0.03; 0.015; 0.003; 0.001; 0.001] /\
  cumulativeWeight (length stellarTypes) = 1 /\
  cumulative64_is_1 = true /\
  forall rand, 0 <= rand <= 1 ->
    exists k t,
      stellarTypes !! k = Some t /\
      selectStellarType rand = t /\
      rand <= cumulativeWeight (S k) /\
      (k = 0%nat \/ cumulativeWeight k < rand).
Proof.
  split; [reflexivity|]. split; [unfold cumulativeWeight; simpl; lra|].
  split; [vm_compute; reflexivity|].
  intros rand [H0 H1]. unfold selectStellarType. simpl.
  repeat case_decide;
    first [ selected 0%nat | selected 1%nat | selected 2%nat | selected 3%nat
          | selected 4%nat | selected 5%nat | selected 6%nat | selected 7%nat
          | exfalso; lra ].
Qed.

Lemma stellar_weights_sum_to_one_witness :
  exists k t,
    stellarTypes !! k = Some t /\
    selectStellarType 0.8 = t /\
    0.8 <= cumulativeWeight (S k) /\
    (k = 0%nat \/ cumulativeWeight k < 0.8).
Proof.
  apply (proj2 (proj2 (proj2 stellar_weights_sum_to_one)) 0.8). lra.
Defined.

(** ** Loops that write block after block *)

Section Blocks.
Context {A : Type} (f : nat -> list A -> list A) (base w : nat)
  (val : nat -> A) (n : nat).
Hypothesis f_length : forall i d, (i < n)%nat -> length (f i d) = length d.
Hypothesis f_frame : forall i d j, (i < n)%nat ->
  ~ (base + i * w <= j < base + (i + 1) * w)%nat -> f i d !! j = d !! j.
Hypothesis f_write : forall i d j, (i < n)%nat ->
  (base + i * w <= j < base + (i + 1) * w)%nat -> (j < length d)%nat ->
  f i d !! j = Some (val j).

Lemma forEach_S {St} m (body : nat -> St -> St) s :
  forEach (S m) body s = body m (forEach m body s).
Proof. unfold forEach. by rewrite seq_S, fold_left_app. Qed.

(** Round [i] writes block [i] and nothing else: after [m] rounds the first
    [m] blocks hold [val] and the rest is as it was. *)
Lemma forEach_blocks m d :
  (m <= n)%nat ->
  length (forEach m f d) = length d /\
  (forall j, ~ (base <= j < base + m * w)%nat -> forEach m f d !! j = d !! j) /\
  (forall j, (base <= j < base + m * w)%nat -> (j < length d)%nat ->
             forEach m f d !! j = Some (val j)).
Proof.
  induction m as [|m IH]; intros Hm.
  - split; [done|]. split; [done|]. intros j Hj. lia.
  - destruct (IH ltac:(lia)) as (IHlen & IHframe & IHwrite).
    rewrite forEach_S. split; [|split].
    + rewrite f_length by lia. exact IHlen.
    + intros j Hj. rewrite f_frame by nia. apply IHframe. nia.
    + intros j Hj Hlen.
      destruct (decide (base + m * w <= j)%nat) as [Hin|Hout].
      * apply f_write; [lia | nia | by rewrite IHlen].
      * rewrite f_frame by nia. apply IHwrite; [nia | done].
Qed.
End Blocks.

(** ** The nebula raster *)

Lemma ToUint8Clamp_integer z :
  (0 <= z <= 255)%Z -> ToUint8Clamp (Finite (IZR z)) = z.
Proof.
  intros [H0 H255]. unfold ToUint8Clamp.
  destruct (decide (IZR z <= 0)) as [Hle|Hgt].
  { apply le_IZR in Hle. lia. }
  destruct (decide (255 <= IZR z)) as [Hge|Hlt].
  { apply le_IZR in Hge. lia. }
  assert (E : Int_part (IZR z) = z).
  { symmetry. apply Int_part_spec. lra. }
  rewrite E. rewrite decide_False by lra. by rewrite decide_True by lra.
Qed.

Lemma ToUint8Clamp_range v : (0 <= ToUint8Clamp v <= 255)%Z.
Proof.
  destruct v as [x| | |]; simpl; try lia.
  destruct (decide (x <= 0)) as [Hle|Hgt]; [lia|].
  destruct (decide (255 <= x)) as [Hge|Hlt]; [lia|].
  destruct (base_Int_part x) as [Hlo Hhi].
  assert (H1 : (Int_part x < 255)%Z) by (apply lt_IZR; lra).
  assert (H2 : (-1 < Int_part x)%Z) by (apply lt_IZR; lra).
  repeat case_decide; try destruct (Z.even _); lia.
Qed.

(** The alpha of a pixel is a finite number of [0, 255]: the base of the
    power is never negative. *)
Lemma nebulaAlpha_finite x y :
  exists a, nebulaAlpha x y = Finite a /\ 0 <= a <= 255.
Proof.
  unfold nebulaAlpha, Math_pow.
  set (b := Rmax 0 ((nebulaNoise x y + 1) * 0.5 - 0.4)).
  assert (Hb : 0 <= b) by apply Rmax_l.
  destruct (decide (0 < b)) as [Hpos|Hnpos].
  - eexists. split; [reflexivity|].
    assert (0 < Rpower b 2.5) by apply exp_pos.
    split; [apply Rmin_glb; lra | apply Rmin_l].
  - rewrite decide_True by lra. rewrite decide_True by lra.
    eexists. split; [reflexivity|].
    split; [apply Rmin_glb; lra | apply Rmin_l].
Qed.

Lemma nebulaPixel_length type y x data :
  length (nebulaPixel type y x data) = length data.
Proof.
  unfold nebulaPixel. case_decide; by rewrite !length_insert.
Qed.

Lemma nebulaPixel_frame type y x data j :
  ~ ((y * 512 + x) * 4 <= j < (y * 512 + x) * 4 + 4)%nat ->
  nebulaPixel type y x data !! j = data !! j.
Proof.
  intros Hj. unfold nebulaPixel.
  case_decide; by rewrite !list_lookup_insert_ne by lia.
Qed.

Lemma nebulaEntry_pixel type x y c :
  (x < 512)%nat -> (c < 4)%nat ->
  nebulaEntry type ((y * 512 + x) * 4 + c) = nebulaChannel type x y c.
Proof.
  intros Hx Hc. unfold nebulaEntry.
  assert (E1 : (((y * 512 + x) * 4 + c) / 4 = y * 512 + x)%nat).
  { symmetry. apply (Nat.div_unique _ 4 _ c); lia. }
  assert (E2 : (((y * 512 + x) * 4 + c) mod 4 = c)%nat).
  { symmetry. apply (Nat.mod_unique _ 4 (y * 512 + x)); lia. }
  assert (E3 : ((y * 512 + x) / 512 = y)%nat).
  { symmetry. apply (Nat.div_unique _ 512 _ x); lia. }
  assert (E4 : ((y * 512 + x) mod 512 = x)%nat).
  { symmetry. apply (Nat.mod_unique _ 512 y); lia. }
  by rewrite E1, E2, E3, E4.
Qed.

Lemma nebulaPixel_write type y x data j :
  (x < 512)%nat ->
  ((y * 512 + x) * 4 <= j < (y * 512 + x) * 4 + 4)%nat ->
  (j < length data)%nat ->
  nebulaPixel type y x data !! j = Some (nebulaEntry type j).
Proof.
  intros Hx Hj Hlen.
  assert (exists c, (c < 4)%nat /\ j = ((y * 512 + x) * 4 + c)%nat)
    as (c & Hc & ->).
  { exists (j - (y * 512 + x) * 4)%nat. lia. }
  rewrite (nebulaEntry_pixel type x y c Hx Hc).
  unfold nebulaPixel, nebulaChannel.
  rewrite (ToUint8Clamp_integer 20), (ToUint8Clamp_integer 15),
    (ToUint8Clamp_integer 10), (ToUint8Clamp_integer 180),
    (ToUint8Clamp_integer 200), (ToUint8Clamp_integer 255) by lia.
  assert (c = 0 \/ c = 1 \/ c = 2 \/ c = 3)%nat as [-> | [-> | [-> | ->]]] by lia.
  - rewrite Nat.add_0_r in *. rewrite list_lookup_insert_ne by lia.
    case_decide; rewrite !list_lookup_insert_ne by lia;
      by apply list_lookup_insert_eq.
  - rewrite list_lookup_insert_ne by lia.
    case_decide; rewrite list_lookup_insert_ne by lia;
      apply list_lookup_insert_eq; by rewrite length_insert.
  - rewrite list_lookup_insert_ne by lia.
    case_decide; apply list_lookup_insert_eq; by rewrite !length_insert.
  - apply list_lookup_insert_eq. case_decide; by rewrite !length_insert.
Qed.

(** The inner loop writes row [y], pixel after pixel. *)
Lemma nebulaRow_spec type y d :
  length (forEach 512 (nebulaPixel type y) d) = length d /\
  (forall j, ~ (y * (512 * 4) <= j < y * (512 * 4) + 512 * 4)%nat ->
             forEach 512 (nebulaPixel type y) d !! j = d !! j) /\
  (forall j, (y * (512 * 4) <= j < y * (512 * 4) + 512 * 4)%nat ->
             (j < length d)%nat ->
             forEach 512 (nebulaPixel type y) d !! j
               = Some (nebulaEntry type j)).
Proof.
  destruct (forEach_blocks (nebulaPixel type y) (y * (512 * 4)) 4
              (nebulaEntry type) 512) with (m := 512%nat) (d := d)
    as (Hlen & Hframe & Hwrite).
  - intros i d' _. apply nebulaPixel_length.
  - intros i d' j _ Hj. apply nebulaPixel_frame. lia.
  - intros i d' j Hi Hj Hlen. apply nebulaPixel_write; [done | lia | done].
  - lia.
  - split; [done|]. split.
    + intros j Hj. apply Hframe. lia.
    + intros j Hj Hl. apply Hwrite; [lia | done].
Qed.

(** The two loops write the whole raster. *)
Lemma nebulaRaster_spec type d :
  length d = (512 * 512 * 4)%nat ->
  length (forEach 512 (fun y data => forEach 512 (nebulaPixel type y) data) d)
    = (512 * 512 * 4)%nat /\
  forall j, (j < 512 * 512 * 4)%nat ->
    forEach 512 (fun y data => forEach 512 (nebulaPixel type y) data) d !! j
      = Some (nebulaEntry type j).
Proof.
  intros Hd.
  destruct (forEach_blocks
              (fun y data => forEach 512 (nebulaPixel type y) data)
              0 (512 * 4) (nebulaEntry type) 512) with (m := 512%nat) (d := d)
    as (Hlen & _ & Hwrite).
  - intros y d' _. apply nebulaRow_spec.
  - intros y d' j _ Hj. apply nebulaRow_spec. lia.
  - intros y d' j _ Hj Hl. apply nebulaRow_spec; [lia | done].
  - lia.
  - split; [by rewrite Hlen|]. intros j Hj. apply Hwrite; lia.
Qed.

(** The material: the same under every oracle, no draw made, and a raster
    of 512 x 512 pixels of four channels. *)
Lemma dustMaterial_spec type :
  exists m,
    (forall rnd p, dustMaterial type rnd p = Ok (m, p)) /\
    length (map m) = (512 * 512 * 4)%nat /\
    forall x y c, (x < 512)%nat -> (y < 512)%nat -> (c < 4)%nat ->
      map m !! ((y * 512 + x) * 4 + c)%nat = Some (nebulaChannel type x y c).
Proof.
  eexists. split; [intros rnd p; reflexivity|]. cbv beta zeta. unfold map.
  destruct (nebulaRaster_spec type (createImageData 512 512))
    as [Hlen Hval].
  { unfold createImageData. apply length_replicate. }
  split; [exact Hlen|].
  intros x y c Hx Hy Hc. rewrite Hval by lia.
  by rewrite nebulaEntry_pixel.
Qed.

(** ** C8: the alpha and the palette of every pixel *)

(** C8: for every pixel [(x, y)] of the 512 x 512 raster, the computed
    [alpha] is a finite number (neither [NaN] nor an infinity) of [0, 255];
    the raster holds its rounding, an integer of [0, 255], in the fourth
    channel of the pixel, and the palette of the type in the first three:
    (20, 15, 10) for ["dark"], (180, 200, 255) otherwise. *)
Theorem nebula_alpha_and_palette type x y :
  (x < 512)%nat -> (y < 512)%nat ->
  exists a m,
    nebulaAlpha x y = Finite a /\ 0 <= a <= 255 /\
    (forall rnd p, dustMaterial type rnd p = Ok (m, p)) /\
    map m !! ((y * 512 + x) * 4)%nat
      = Some (if decide (type = "dark") then 20%Z else 180%Z) /\
    map m !! ((y * 512 + x) * 4 + 1)%nat
      = Some (if decide (type = "dark") then 15%Z else 200%Z) /\
    map m !! ((y * 512 + x) * 4 + 2)%nat
      = Some (if decide (type = "dark") then 10%Z else 255%Z) /\
    map m !! ((y * 512 + x) * 4 + 3)%nat = Some (ToUint8Clamp (Finite a)) /\
    (0 <= ToUint8Clamp (Finite a) <= 255)%Z.
Proof.
  intros Hx Hy.
  destruct (nebulaAlpha_finite x y) as (a & Ha & Hrange).
  destruct (dustMaterial_spec type) as (m & Hrun & _ & Hval).
  exists a, m. split; [done|]. split; [done|]. split; [done|].
  pose proof (Hval x y 0%nat Hx Hy ltac:(lia)) as V0.
  pose proof (Hval x y 1%nat Hx Hy ltac:(lia)) as V1.
  pose proof (Hval x y 2%nat Hx Hy ltac:(lia)) as V2.
  pose proof (Hval x y 3%nat Hx Hy ltac:(lia)) as V3.
  rewrite Nat.add_0_r in V0. unfold nebulaChannel in *. rewrite Ha in V3.
  split; [done|]. split; [done|]. split; [done|]. split; [done|].
  apply ToUint8Clamp_range.
Qed.

Lemma nebula_alpha_and_palette_witness :
  exists a m,
    nebulaAlpha 3 5 = Finite a /\ 0 <= a <= 255 /\
    (forall rnd p, dustMaterial "dark" rnd p = Ok (m, p)) /\
    map m !! ((5 * 512 + 3) * 4)%nat = Some 20%Z /\
    map m !! ((5 * 512 + 3) * 4 + 1)%nat = Some 15%Z /\
    map m !! ((5 * 512 + 3) * 4 + 2)%nat = Some 10%Z /\
    map m !! ((5 * 512 + 3) * 4 + 3)%nat = Some (ToUint8Clamp (Finite a)) /\
    (0 <= ToUint8Clamp (Finite a) <= 255)%Z.
Proof.
  apply (nebula_alpha_and_palette "dark" 3 5); lia.
Defined.

(** ** C9: the nebula depends on its type alone *)

(** C9: the synthesis makes no draw and does not depend on the oracle: under
    any two oracles, from any two draw counts, it returns the same material,
    whose raster has 512 x 512 x 4 entries, each one a function of the type
    and of the pixel. *)
Theorem nebula_depends_on_type_alone type rnd1 p1 rnd2 p2 :
  exists m,
    dustMaterial type rnd1 p1 = Ok (m, p1) /\
    dustMaterial type rnd2 p2 = Ok (m, p2) /\
    length (map m) = (512 * 512 * 4)%nat /\
    forall x y c, (x < 512)%nat -> (y < 512)%nat -> (c < 4)%nat ->
      map m !! ((y * 512 + x) * 4 + c)%nat = Some (nebulaChannel type x y c).
Proof.
  destruct (dustMaterial_spec type) as (m & Hrun & Hlen & Hval).
  exists m. by rewrite !Hrun.
Qed.

(** * Further properties *)

(** ** Star generation: sizes, magnitudes and draws *)

Lemma starSize_tier t m rnd p s q :
  unit_interval rnd -> 0 < size t ->
  starSize t m rnd p = Ok (s, q) -> tierSize t m s.
Proof.
  intros Hr Ht. destruct (Hr p) as [H0 H1].
  unfold starSize, tierSize, bind, Math_random, ret.
  repeat case_decide; intros [= <- <-]; repeat split; intros; nra.
Qed.

(** What a placed star leaves in the size and magnitude buffers. *)
Lemma placeStar_bright count i bufs rnd p bufs' q :
  unit_interval rnd -> starBuffersOf count bufs -> (i < count)%nat ->
  placeStar count i bufs rnd p = Ok (bufs', q) ->
  starBright bufs' i /\
  (forall j, j <> i -> starBright bufs j -> starBright bufs' j).
Proof.
  intros Hr (Lp & Lc & Ls & Lm) Hi.
  destruct (starRadius_spec count i rnd p Hr) as (radius & Hrad & _).
  pose proof (Hr (S (S p))) as Hphi.
  assert (Hacos : Math_acos (rnd (S (S p)) * 2 - 1) rnd (S (S (S p)))
                  = Ok (acos (rnd (S (S p)) * 2 - 1), S (S (S p)))).
  { apply Math_acos_Ok. lra. }
  set (t := selectStellarType (rnd (S (S (S p))))).
  pose proof (selectStellarType_elem (rnd (S (S (S p))))) as Ht. fold t in Ht.
  destruct (stellarTypes_ranges t Ht) as (Hsize & _).
  destruct (starSize_spec t (rnd (S (S (S (S p))))) rnd
              (S (S (S (S (S p))))) Hr Hsize) as (s & Hs & _).
  pose proof (starSize_tier _ _ _ _ _ _ Hr Hsize Hs) as Htier.
  unfold placeStar.
  rewrite (bind_Ok _ _ _ _ _ _ Hrad).
  rewrite (bind_Ok _ _ _ _ _ _ (Math_random_Ok _ _)).
  rewrite (bind_Ok _ _ _ _ _ _ (Math_random_Ok _ _)).
  rewrite (bind_Ok _ _ _ _ _ _ Hacos).
  rewrite (bind_Ok _ _ _ _ _ _ (Math_random_Ok _ _)).
  rewrite (bind_Ok _ _ _ _ _ _ (Math_random_Ok _ _)).
  fold t. rewrite (bind_Ok _ _ _ _ _ _ Hs).
  rewrite (bind_Ok _ _ _ _ _ _ (Math_random_Ok _ _)).
  unfold ret. intros [= <- <-]. split.
  - exists t, (rnd (S (S (S (S p))))), s. simpl.
    split; [done|]. split; [apply Hr|].
    split; [apply list_lookup_insert_eq; lia|].
    split; [apply list_lookup_insert_eq; lia | done].
  - intros j Hj (t' & m' & s' & Ht' & Hm' & Lm' & Ls' & Htier').
    exists t', m', s'. simpl.
    by rewrite !list_lookup_insert_ne by done.
Qed.

(** A property of each star that a placed star gets and that placing
    another star keeps holds of every star when the loop returns. *)
Lemma starLoop_each rnd count (P : StarBuffers -> nat -> Prop) :
  unit_interval rnd ->
  (forall i bufs p bufs' q,
     starBuffersOf count bufs -> (i < count)%nat ->
     placeStar count i bufs rnd p = Ok (bufs', q) ->
     P bufs' i /\ forall j, j <> i -> P bufs j -> P bufs' j) ->
  forall fuel i bufs p bufs' q,
    starBuffersOf count bufs ->
    (forall j, (j < i)%nat -> P bufs j) ->
    starLoop fuel count i bufs rnd p = Ok (bufs', q) ->
    forall j, (j < count)%nat -> P bufs' j.
Proof.
  intros Hr Hplace. induction fuel as [|fuel IH];
    intros i bufs p bufs' q Hlen Hdone; simpl.
  - case_decide as Hi; [discriminate|].
    intros [= <- <-] j Hj. apply Hdone. lia.
  - case_decide as Hi.
    + intros Hrun. apply bind_inv_Ok in Hrun as (skip & p1 & _ & Hrun).
      destruct skip; [by apply (IH i bufs p1 bufs' q)|].
      apply bind_inv_Ok in Hrun as (bufs1 & p2 & Hp & Hrun).
      destruct (placeStar_spec count i bufs rnd p1 Hr Hlen Hi)
        as (bufs1' & Hp' & Hlen1 & _).
      assert (bufs1' = bufs1) as -> by congruence.
      destruct (Hplace i bufs p1 bufs1 p2 Hlen Hi Hp) as [Pi Pothers].
      apply (IH (S i) bufs1 p2 bufs' q Hlen1); [|done].
      intros j Hj. destruct (decide (j = i)) as [->|Hne]; [done|].
      apply Pothers; [done|]. apply Hdone. lia.
    + intros [= <- <-] j Hj. apply Hdone. lia.
Qed.

(** The skip test makes two draws, or three when the second draw did not
    place the star. *)
Lemma skipStar_draws rnd p b q :
  skipStar rnd p = Ok (b, q) ->
  (q = p + 2 \/ q = p + 3)%nat /\ (b = true -> q = (p + 3)%nat).
Proof.
  unfold skipStar, bind, Math_random, ret.
  destruct (bool_decide (rnd (S p) < _)); intros [= <- <-].
  - split; [left; lia | discriminate].
  - split; [right; lia | intros; lia].
Qed.

Lemma starLoop_draws rnd count fuel : forall i bufs p bufs' q,
  unit_interval rnd -> starBuffersOf count bufs -> (i <= count)%nat ->
  starLoop fuel count i bufs rnd p = Ok (bufs', q) ->
  (p + 9 * (count - i) <= q)%nat.
Proof.
  induction fuel as [|fuel IH]; intros i bufs p bufs' q Hr Hlen Hic; simpl.
  - case_decide as Hi; [discriminate|]. intros [= <- <-]. lia.
  - case_decide as Hi; [|intros [= <- <-]; lia].
    intros Hrun. apply bind_inv_Ok in Hrun as (skip & p1 & Hskip & Hrun).
    destruct (skipStar_draws _ _ _ _ Hskip) as [Hq _].
    destruct skip.
    + pose proof (IH i bufs p1 bufs' q Hr Hlen Hic Hrun). lia.
    + apply bind_inv_Ok in Hrun as (bufs1 & p2 & Hp & Hrun).
      destruct (placeStar_spec count i bufs rnd p1 Hr Hlen Hi)
        as (bufs1' & Hp' & Hlen1 & _).
      rewrite Hp' in Hp. injection Hp as <- <-.
      pose proof (IH (S i) bufs1' (p1 + 7)%nat bufs' q Hr Hlen1
                    ltac:(lia) Hrun). lia.
Qed.

(** X1: every generated star has a magnitude of [0, 1) and a size that is
    the fraction of the size of a class of the table that its brightness
    tier gives: 10% to 40% below magnitude 0.85, 40% to 100% below 0.97,
    100% to 250% from 0.97 on; all sizes are in [0.03, 10). *)
Theorem generated_sizes_follow_the_tiers fuel count rnd p bufs q i :
  unit_interval rnd ->
  generateStars fuel count rnd p = Ok (bufs, q) ->
  (i < count)%nat ->
  exists t m s,
    t ∈ stellarTypes /\ 0 <= m < 1 /\
    magnitudes bufs !! i = Some m /\ sizes bufs !! i = Some s /\
    tierSize t m s /\ 0.03 <= s < 10.
Proof.
  intros Hr Hrun Hi.
  destruct (starLoop_each rnd count starBright Hr
              (fun i bufs p bufs' q => placeStar_bright count i bufs rnd p bufs' q Hr)
              fuel 0%nat _ p bufs q (Float32Array_buffers count)
              ltac:(intros; lia) Hrun i Hi)
    as (t & m & s & Ht & Hm & Lm & Ls & Htier).
  exists t, m, s. repeat (split; [done|]).
  destruct (stellarTypes_ranges t Ht) as (Hpos & _).
  assert (Hmax : 0.3 <= size t <= 4).
  { revert Ht. unfold stellarTypes. rewrite !elem_of_cons, elem_of_nil.
    intros Ht. decompose [or] Ht; subst; simpl; try lra; done. }
  destruct Htier as (T1 & T2 & T3).
  destruct (Rlt_dec m 0.85) as [H1|H1]; [specialize (T1 H1); lra|].
  destruct (Rlt_dec m 0.97) as [H2|H2].
  - specialize (T2 ltac:(lra) H2). lra.
  - specialize (T3 ltac:(lra)). lra.
Qed.

Lemma generated_sizes_follow_the_tiers_witness :
  exists fuel bufs q t m s,
    generateStars fuel 2 (fun _ => 0) 0%nat = Ok (bufs, q) /\
    t ∈ stellarTypes /\ 0 <= m < 1 /\
    magnitudes bufs !! 1%nat = Some m /\ sizes bufs !! 1%nat = Some s /\
    tierSize t m s /\ 0.03 <= s < 10.
Proof.
  destruct (starLoop_ends (fun _ => 0) 2 (proj1 zero_oracle)
              (proj2 zero_oracle) 2 0%nat _ 0%nat eq_refl
              (Float32Array_buffers 2)) as (fuel & bufs & q & Hrun).
  destruct (generated_sizes_follow_the_tiers fuel 2 (fun _ => 0) 0%nat bufs q
              1%nat (proj1 zero_oracle) Hrun ltac:(lia))
    as (t & m & s & H).
  exists fuel, bufs, q, t, m, s. split; [exact Hrun | exact H].
Defined.

(** X2: generation makes at least nine calls of [Math.random()] per star:
    two or three for the skip test of the round that places it and seven to
    place it, and three more for every skipped round. *)
Theorem generation_draws_nine_per_star fuel count rnd p bufs q :
  unit_interval rnd ->
  generateStars fuel count rnd p = Ok (bufs, q) ->
  (p + 9 * count <= q)%nat.
Proof.
  intros Hr Hrun.
  pose proof (starLoop_draws rnd count fuel 0%nat _ p bufs q Hr
                (Float32Array_buffers count) ltac:(lia) Hrun). lia.
Qed.

Lemma generation_draws_nine_per_star_witness :
  exists fuel bufs q,
    generateStars fuel 2 (fun _ => 0) 0%nat = Ok (bufs, q) /\
    (0 + 9 * 2 <= q)%nat.
Proof.
  destruct (starLoop_ends (fun _ => 0) 2 (proj1 zero_oracle)
              (proj2 zero_oracle) 2 0%nat _ 0%nat eq_refl
              (Float32Array_buffers 2)) as (fuel & bufs & q & Hrun).
  exists fuel, bufs, q. split; [exact Hrun|].
  exact (generation_draws_nine_per_star fuel 2 (fun _ => 0) 0%nat bufs q
           (proj1 zero_oracle) Hrun).
Defined.

(** ** Frames: bounds, and what a frame leaves for the next one *)

(** A frame, seen from star [i]. *)
Lemma useFrame_star time sf g rnd p i base :
  wf_starfield sf g -> (i < count sf)%nat ->
  get (store sf) (sizes_ sf) i = Some base ->
  exists h' c0 c1 c2,
    useFrame time sf rnd p
      = Ok (mkStarfield (count sf) h' (positions_ sf) (colors_ sf) (sizes_ sf)
              (magnitudes_ sf) (Some (dirty g)), (p + count sf)%nat) /\
    (forall a, a <> array (attributes_size g) ->
               a <> array (attributes_color g) -> h' !! a = store sf !! a) /\
    get h' (array (attributes_size g)) i
      = Some (base * Rmax 0.3 (scintillation time (rnd (p + i)%nat) i base)) /\
    get h' (array (attributes_color g)) (i * 3) = Some (Rmin 1 c0) /\
    get h' (array (attributes_color g)) (i * 3 + 1) = Some (Rmin 1 c1) /\
    get h' (array (attributes_color g)) (i * 3 + 2) = Some (Rmin 1 c2).
Proof.
  intros Hwf Hi Hs.
  destruct (useFrame_spec time sf g rnd p Hwf) as (h' & R & _ & Hoth & V).
  destruct (wf_sized _ _ Hwf) as (_ & Hcs & _ & _).
  destruct (get_is_Some _ _ (i * 3) _ Hcs ltac:(lia)) as [c0 Hc0].
  destruct (get_is_Some _ _ (i * 3 + 1) _ Hcs ltac:(lia)) as [c1 Hc1].
  destruct (get_is_Some _ _ (i * 3 + 2) _ Hcs ltac:(lia)) as [c2 Hc2].
  destruct (V i base c0 c1 c2 Hi Hs Hc0 Hc1 Hc2) as (W & W0 & W1 & W2).
  eexists h', _, _, _. split; [exact R|]. split; [exact Hoth|].
  split; [exact W|]. split; [exact W0|]. split; [exact W1 | exact W2].
Qed.

Lemma scintillation_bounds time r i s :
  1 - twinkleIntensity s <= scintillation time r i s <= 1 + twinkleIntensity s.
Proof.
  unfold scintillation.
  pose proof (SIN_bound (time * (1 + r * 3) + INR i * 0.123)) as [Hlo Hhi].
  assert (Hti : 0 <= twinkleIntensity s) by apply Rmax_l.
  split; nra.
Qed.

(** X3: in a frame, the size written for a star of non-negative base size
    lies between 0.3 times the base size and [1 + twinkleIntensity] times
    the base size, and the three colour channels written are at most 1. *)
Theorem twinkle_size_and_color_bounds time sf g rnd p i base :
  wf_starfield sf g -> (i < count sf)%nat ->
  get (store sf) (sizes_ sf) i = Some base -> 0 <= base ->
  exists sf' w c0 c1 c2,
    useFrame time sf rnd p = Ok (sf', (p + count sf)%nat) /\
    get (store sf') (array (attributes_size g)) i = Some w /\
    0.3 * base <= w <= (1 + twinkleIntensity base) * base /\
    get (store sf') (array (attributes_color g)) (i * 3) = Some c0 /\
    get (store sf') (array (attributes_color g)) (i * 3 + 1) = Some c1 /\
    get (store sf') (array (attributes_color g)) (i * 3 + 2) = Some c2 /\
    c0 <= 1 /\ c1 <= 1 /\ c2 <= 1.
Proof.
  intros Hwf Hi Hs Hb.
  destruct (useFrame_star time sf g rnd p i base Hwf Hi Hs)
    as (h' & c0 & c1 & c2 & R & _ & W & W0 & W1 & W2).
  eexists _, _, _, _, _. split; [exact R|]. simpl.
  split; [exact W|]. split.
  - pose proof (scintillation_bounds time (rnd (p + i)%nat) i base) as [_ Hhi].
    assert (Hti : 0 <= twinkleIntensity base) by apply Rmax_l.
    pose proof (Rmax_l 0.3 (scintillation time (rnd (p + i)%nat) i base)).
    assert (Rmax 0.3 (scintillation time (rnd (p + i)%nat) i base)
            <= 1 + twinkleIntensity base) by (apply Rmax_lub; lra).
    split; nra.
  - split; [exact W0|]. split; [exact W1|]. split; [exact W2|].
    repeat split; apply Rmin_l.
Qed.

Lemma twinkle_size_and_color_bounds_witness :
  exists sf' w c0 c1 c2,
    useFrame 1 (oneStar (3/2)) (fun _ => 0) 0%nat
      = Ok (sf', (0 + count (oneStar (3/2)))%nat) /\
    get (store sf') (array (attributes_size (mounted true))) 0 = Some w /\
    0.3 * (3/2) <= w <= (1 + twinkleIntensity (3/2)) * (3/2) /\
    get (store sf') (array (attributes_color (mounted true))) (0 * 3) = Some c0 /\
    get (store sf') (array (attributes_color (mounted true))) (0 * 3 + 1) = Some c1 /\
    get (store sf') (array (attributes_color (mounted true))) (0 * 3 + 2) = Some c2 /\
    c0 <= 1 /\ c1 <= 1 /\ c2 <= 1.
Proof.
  apply (twinkle_size_and_color_bounds 1 (oneStar (3/2)) (mounted true)
           (fun _ => 0) 0%nat 0%nat (3/2)).
  - apply oneStar_wf.
  - simpl. lia.
  - apply oneStar_get.
  - lra.
Defined.

(** X4: a star of base size at most 0.5 keeps its base size through a
    frame, whether the size attribute is the array of base sizes or an array
    of its own; the starfield after the frame is a mounted one again, so the
    star stays still frame after frame. *)
Theorem faint_star_keeps_its_base_size time sf g rnd p i base :
  wf_starfield sf g -> (i < count sf)%nat ->
  get (store sf) (sizes_ sf) i = Some base -> base <= 0.5 ->
  exists sf',
    useFrame time sf rnd p = Ok (sf', (p + count sf)%nat) /\
    count sf' = count sf /\
    wf_starfield sf' (dirty g) /\
    get (store sf') (sizes_ sf') i = Some base.
Proof.
  intros Hwf Hi Hs Hb.
  destruct (useFrame_star time sf g rnd p i base Hwf Hi Hs)
    as (h' & c0 & c1 & c2 & R & Hoth & W & _).
  eexists. split; [exact R|]. split; [reflexivity|].
  split; [by apply (useFrame_wf time sf g rnd p _ _ Hwf R)|]. simpl.
  destruct (decide (sizes_ sf = array (attributes_size g))) as [E|Hne].
  - rewrite E, W, (scintillation_faint _ _ _ _ Hb).
    rewrite Rmax_right by lra. f_equal. lra.
  - unfold get in *. rewrite Hoth; [done | done | apply (wf_sizes_color _ _ Hwf)].
Qed.

Lemma faint_star_keeps_its_base_size_witness :
  exists sf',
    useFrame 1 (oneStar 0.12) (fun _ => 0) 0%nat
      = Ok (sf', (0 + count (oneStar 0.12))%nat) /\
    count sf' = count (oneStar 0.12) /\
    wf_starfield sf' (dirty (mounted true)) /\
    get (store sf') (sizes_ sf') 0 = Some 0.12.
Proof.
  apply (faint_star_keeps_its_base_size 1 (oneStar 0.12) (mounted true)
           (fun _ => 0) 0%nat 0%nat 0.12).
  - apply oneStar_wf.
  - simpl. lia.
  - apply oneStar_get.
  - lra.
Defined.

(** X5: when the size attribute is the array of base sizes itself, the
    frames compound: the first frame overwrites the base size with the
    twinkled size, and the second frame twinkles that one.  After two frames
    the entry is [base * f1 * f2], [f2] being computed from [base * f1]. *)
Theorem shared_sizes_compound time1 time2 sf g rnd p i base :
  wf_starfield sf g -> array (attributes_size g) = sizes_ sf ->
  (i < count sf)%nat -> get (store sf) (sizes_ sf) i = Some base ->
  exists sf1 sf2 f1 f2,
    useFrame time1 sf rnd p = Ok (sf1, (p + count sf)%nat) /\
    useFrame time2 sf1 rnd (p + count sf)%nat
      = Ok (sf2, (p + count sf + count sf)%nat) /\
    f1 = Rmax 0.3 (scintillation time1 (rnd (p + i)%nat) i base) /\
    f2 = Rmax 0.3 (scintillation time2 (rnd (p + count sf + i)%nat) i
                     (base * f1)) /\
    get (store sf1) (sizes_ sf) i = Some (base * f1) /\
    get (store sf2) (sizes_ sf) i = Some (base * f1 * f2).
Proof.
  intros Hwf Hsh Hi Hs.
  destruct (useFrame_star time1 sf g rnd p i base Hwf Hi Hs)
    as (h1 & ? & ? & ? & R1 & _ & W1 & _).
  pose proof (useFrame_wf time1 sf g rnd p _ _ Hwf R1) as Hwf1.
  set (sf1 := mkStarfield (count sf) h1 (positions_ sf) (colors_ sf)
                (sizes_ sf) (magnitudes_ sf) (Some (dirty g))) in *.
  rewrite Hsh in W1.
  destruct (useFrame_star time2 sf1 (dirty g) rnd (p + count sf)%nat i _
              Hwf1 Hi W1) as (h2 & ? & ? & ? & R2 & _ & W2 & _).
  simpl in W2. rewrite Hsh in W2.
  eexists sf1, _, _, _. split; [exact R1|]. split; [exact R2|].
  split; [reflexivity|]. split; [reflexivity|]. split; [exact W1|exact W2].
Qed.

Lemma shared_sizes_compound_witness :
  exists sf1 sf2 f1 f2,
    useFrame 1 (oneStar (3/2)) (fun _ => 0) 0%nat
      = Ok (sf1, (0 + count (oneStar (3/2)))%nat) /\
    useFrame 2 sf1 (fun _ => 0) (0 + count (oneStar (3/2)))%nat
      = Ok (sf2, (0 + count (oneStar (3/2)) + count (oneStar (3/2)))%nat) /\
    f1 = Rmax 0.3 (scintillation 1 0 0 (3/2)) /\
    f2 = Rmax 0.3 (scintillation 2 0 0 (3/2 * f1)) /\
    get (store sf1) (sizes_ (oneStar (3/2))) 0 = Some (3/2 * f1) /\
    get (store sf2) (sizes_ (oneStar (3/2))) 0 = Some (3/2 * f1 * f2).
Proof.
  apply (shared_sizes_compound 1 2 (oneStar (3/2)) (mounted true)
           (fun _ => 0) 0%nat 0%nat (3/2)).
  - apply oneStar_wf.
  - reflexivity.
  - simpl. lia.
  - apply oneStar_get.
Defined.

Lemma oneStarCopied_wf s : wf_starfield (oneStarCopied s) (mounted false).
Proof.
  apply mount_wf; [reflexivity | reflexivity |].
  repeat constructor; simpl; lra.
Qed.

Lemma oneStarCopied_get s :
  get (store (oneStarCopied s)) (sizes_ (oneStarCopied s)) 0 = Some s.
Proof.
  unfold get, oneStarCopied, mount; simpl.
  rewrite !(lookup_insert_ne _ 6%nat), !(lookup_insert_ne _ 5%nat),
    !(lookup_insert_ne _ 4%nat), !(lookup_insert_ne _ 3%nat) by done.
  by rewrite !lookup_insert_eq.
Qed.

(** X6: when the size attribute has an array of its own, the frames do not
    compound: the base sizes are as they were after the first frame, and the
    second frame writes the base size times its own factor, whatever the
    first frame wrote. *)
Theorem own_sizes_do_not_compound time1 time2 sf g rnd p i base :
  wf_starfield sf g -> array (attributes_size g) <> sizes_ sf ->
  (i < count sf)%nat -> get (store sf) (sizes_ sf) i = Some base ->
  exists sf1 sf2,
    useFrame time1 sf rnd p = Ok (sf1, (p + count sf)%nat) /\
    useFrame time2 sf1 rnd (p + count sf)%nat
      = Ok (sf2, (p + count sf + count sf)%nat) /\
    get (store sf1) (sizes_ sf) i = Some base /\
    get (store sf2) (sizes_ sf) i = Some base /\
    get (store sf2) (array (attributes_size g)) i
      = Some (base * Rmax 0.3 (scintillation time2
                                 (rnd (p + count sf + i)%nat) i base)).
Proof.
  intros Hwf Hown Hi Hs.
  destruct (useFrame_star time1 sf g rnd p i base Hwf Hi Hs)
    as (h1 & ? & ? & ? & R1 & Hoth1 & _).
  pose proof (useFrame_wf time1 sf g rnd p _ _ Hwf R1) as Hwf1.
  set (sf1 := mkStarfield (count sf) h1 (positions_ sf) (colors_ sf)
                (sizes_ sf) (magnitudes_ sf) (Some (dirty g))) in *.
  assert (S1 : get (store sf1) (sizes_ sf1) i = Some base).
  { simpl. unfold get in *.
    rewrite Hoth1; [done | congruence | apply (wf_sizes_color _ _ Hwf)]. }
  destruct (useFrame_star time2 sf1 (dirty g) rnd (p + count sf)%nat i base
              Hwf1 Hi S1) as (h2 & ? & ? & ? & R2 & Hoth2 & W2 & _).
  eexists sf1, _. split; [exact R1|]. split; [exact R2|].
  split; [exact S1|]. split; [|exact W2].
  simpl in *. unfold get in *.
  rewrite Hoth2; [done | congruence | apply (wf_sizes_color _ _ Hwf)].
Qed.

Lemma own_sizes_do_not_compound_witness :
  exists sf1 sf2,
    useFrame 1 (oneStarCopied (3/2)) (fun _ => 0) 0%nat
      = Ok (sf1, (0 + count (oneStarCopied (3/2)))%nat) /\
    useFrame 2 sf1 (fun _ => 0) (0 + count (oneStarCopied (3/2)))%nat
      = Ok (sf2, (0 + count (oneStarCopied (3/2))
                  + count (oneStarCopied (3/2)))%nat) /\
    get (store sf1) (sizes_ (oneStarCopied (3/2))) 0 = Some (3/2) /\
    get (store sf2) (sizes_ (oneStarCopied (3/2))) 0 = Some (3/2) /\
    get (store sf2) (array (attributes_size (mounted false))) 0
      = Some (3/2 * Rmax 0.3 (scintillation 2 0 0 (3/2))).
Proof.
  apply (own_sizes_do_not_compound 1 2 (oneStarCopied (3/2)) (mounted false)
           (fun _ => 0) 0%nat 0%nat (3/2)).
  - apply oneStarCopied_wf.
  - simpl. lia.
  - simpl. lia.
  - apply oneStarCopied_get.
Defined.

(** X7: on every starfield the component goes through (generated, mounted,
    then any number of frames) a frame ends without a [NaN] and without
    reading past the end of an array, draws one number per star, and leaves
    a starfield of the same kind, with the same count, the arrays at their
    lengths and every base colour at most 1. *)
Theorem frames_never_fail time sf rnd p :
  reachable sf ->
  exists sf',
    useFrame time sf rnd p = Ok (sf', (p + count sf)%nat) /\
    reachable sf' /\ count sf' = count sf /\
    size_of (store sf') (sizes_ sf') = Some (count sf) /\
    size_of (store sf') (colors_ sf') = Some (count sf * 3)%nat /\
    forall j c, get (store sf') (colors_ sf') j = Some c -> c <= 1.
Proof.
  intros Hreach. destruct (reachable_wf sf Hreach) as [g Hwf].
  destruct (useFrame_spec time sf g rnd p Hwf) as (h' & R & _).
  pose proof (useFrame_wf time sf g rnd p _ _ Hwf R) as Hwf'.
  eexists. split; [exact R|].
  split; [by apply (reach_frame time sf rnd p _ _ Hreach R)|].
  split; [reflexivity|].
  destruct (wf_sized _ _ Hwf') as (Hzs & Hcs & _).
  split; [exact Hzs|]. split; [exact Hcs|].
  exact (wf_colors_le_1 _ _ Hwf').
Qed.

Lemma frames_never_fail_witness :
  exists fuel bufs q sf',
    generateStars fuel 2 (fun _ => 0) 0%nat = Ok (bufs, q) /\
    useFrame 1 (mount true 2 bufs) (fun _ => 1/2) q
      = Ok (sf', (q + count (mount true 2 bufs))%nat) /\
    reachable sf' /\ count sf' = count (mount true 2 bufs) /\
    size_of (store sf') (sizes_ sf') = Some (count (mount true 2 bufs)) /\
    size_of (store sf') (colors_ sf')
      = Some (count (mount true 2 bufs) * 3)%nat /\
    forall j c, get (store sf') (colors_ sf') j = Some c -> c <= 1.
Proof.
  destruct (starLoop_ends (fun _ => 0) 2 (proj1 zero_oracle)
              (proj2 zero_oracle) 2 0%nat _ 0%nat eq_refl
              (Float32Array_buffers 2)) as (fuel & bufs & q & Hrun).
  destruct (frames_never_fail 1 (mount true 2 bufs) (fun _ => 1/2) q
              (reach_mount true fuel 2 (fun _ => 0) 0%nat bufs q
                 (proj1 zero_oracle) Hrun)) as (sf' & H).
  exists fuel, bufs, q, sf'. split; [exact Hrun | exact H].
Defined.

(** ** The nebula: how opaque a pixel can be *)

Lemma nebulaNoise_bound x y : -1.2375 <= nebulaNoise x y <= 1.2375.
Proof.
  unfold nebulaNoise.
  pose proof (SIN_bound (INR x / 512 * 12 + INR y / 512 * 8)).
  pose proof (SIN_bound (INR x / 512 * 24 + INR y / 512 * 16)).
  pose proof (SIN_bound (INR x / 512 * 48 + INR y / 512 * 32)).
  pose proof (SIN_bound (INR x / 512 * 96 + INR y / 512 * 64)).
  pose proof (SIN_bound (INR x / 512 * 80 + cos (INR y / 512 * 60) * 2)).
  cbv zeta. lra.
Qed.

(** Below 1, the power 2.5 is under the square. *)
Lemma Rpower_2_5_le_square b : 0 < b <= 1 -> Rpower b 2.5 <= b * b.
Proof.
  intros [Hpos Hle]. unfold Rpower.
  assert (Hln : ln b <= 0).
  { destruct Hle as [Hlt| ->]; [|rewrite ln_1; lra].
    left. rewrite <- ln_1. by apply ln_increasing. }
  replace (b * b) with (exp (ln b + ln b)).
  - destruct (Req_dec (2.5 * ln b) (ln b + ln b)) as [->|Hne]; [lra|].
    left. apply exp_increasing. lra.
  - rewrite exp_plus, exp_ln by done. reflexivity.
Qed.

Lemma ToUint8Clamp_le a k :
  a <= IZR k -> (0 <= k <= 255)%Z -> (ToUint8Clamp (Finite a) <= k)%Z.
Proof.
  intros Ha Hk. simpl.
  destruct (decide (a <= 0)) as [Hle|Hgt]; [lia|].
  destruct (decide (255 <= a)) as [Hge|Hlt].
  { assert (255 <= IZR k) as H%le_IZR by lra. lia. }
  destruct (base_Int_part a) as [Hlo Hhi].
  assert (H1 : (Int_part a <= k)%Z) by (apply le_IZR; lra).
  destruct (decide (IZR (Int_part a) + 0.5 < a)) as [Hup|Hnup]; [|
    destruct (decide (a < IZR (Int_part a) + 0.5));
    [lia | destruct (Z.even _); [lia|]]].
  - assert (IZR (Int_part a) < IZR k) as H%lt_IZR by lra. lia.
  - assert (IZR (Int_part a) < IZR k) as H%lt_IZR by lra. lia.
Qed.

(** The alpha of a pixel, spelled out. *)
Lemma nebulaAlpha_cases x y :
  (nebulaNoise x y <= -0.2 /\ nebulaAlpha x y = Finite 0) \/
  (-0.2 < nebulaNoise x y /\
   exists a, nebulaAlpha x y = Finite a /\ 0 < a < 42 /\
             a = Rpower ((nebulaNoise x y + 1) * 0.5 - 0.4) 2.5 * 80).
Proof.
  pose proof (nebulaNoise_bound x y) as [Hlo Hhi].
  unfold nebulaAlpha, Math_pow.
  destruct (Rle_dec (nebulaNoise x y) (-0.2)) as [Hle|Hgt].
  - left. split; [done|].
    rewrite Rmax_left by lra.
    rewrite decide_False by lra. rewrite decide_True by done.
    rewrite decide_True by lra. simpl. f_equal.
    rewrite Rmin_right; lra.
  - right. split; [lra|].
    rewrite Rmax_right by lra.
    set (b := (nebulaNoise x y + 1) * 0.5 - 0.4).
    assert (Hb : 0 < b <= 0.71875) by (unfold b; lra).
    rewrite decide_True by lra. simpl.
    assert (Hp : 0 < Rpower b 2.5) by apply exp_pos.
    pose proof (Rpower_2_5_le_square b ltac:(lra)) as Hsq.
    assert (Hbb : b * b <= 0.71875 * 0.71875) by nra.
    eexists. split; [reflexivity|].
    rewrite Rmin_right by lra. split; [lra | reflexivity].
Qed.

(** X8: the alpha of every pixel is below 42, so [Math.min(255, ...)] never
    cuts it, and the alpha byte of every pixel of the raster is at most 42
    of 255. *)
Theorem nebula_alpha_is_faint type x y :
  (x < 512)%nat -> (y < 512)%nat ->
  exists a m v,
    nebulaAlpha x y = Finite a /\ 0 <= a < 42 /\
    (forall rnd p, dustMaterial type rnd p = Ok (m, p)) /\
    map m !! ((y * 512 + x) * 4 + 3)%nat = Some v /\ (0 <= v <= 42)%Z.
Proof.
  intros Hx Hy.
  destruct (dustMaterial_spec type) as (m & Hrun & _ & Hval).
  pose proof (Hval x y 3%nat Hx Hy ltac:(lia)) as V. simpl in V.
  destruct (nebulaAlpha_cases x y) as [[_ Ha] | [_ (a & Ha & Hr & _)]].
  - exists 0, m, (ToUint8Clamp (nebulaAlpha x y)).
    split; [done|]. split; [lra|]. split; [done|]. split; [done|].
    rewrite Ha. split; [apply ToUint8Clamp_range|].
    apply ToUint8Clamp_le; [lra | lia].
  - exists a, m, (ToUint8Clamp (nebulaAlpha x y)).
    split; [done|]. split; [lra|]. split; [done|]. split; [done|].
    rewrite Ha. split; [apply ToUint8Clamp_range|].
    apply ToUint8Clamp_le; [lra | lia].
Qed.

Lemma nebula_alpha_is_faint_witness :
  exists a m v,
    nebulaAlpha 3 5 = Finite a /\ 0 <= a < 42 /\
    (forall rnd p, dustMaterial "reflection" rnd p = Ok (m, p)) /\
    map m !! ((5 * 512 + 3) * 4 + 3)%nat = Some v /\ (0 <= v <= 42)%Z.
Proof. apply (nebula_alpha_is_faint "reflection" 3 5); lia. Defined.

(** X9: the power curve has a floor: where the sum of the octaves and the
    turbulence is at most -0.2 (normalised noise at most 0.4) the alpha is 0
    and the pixel is stored fully transparent; above, the alpha is positive
    and is [((noise + 1) * 0.5 - 0.4) ^ 2.5 * 80]. *)
Theorem nebula_floor type x y :
  (x < 512)%nat -> (y < 512)%nat ->
  exists m,
    (forall rnd p, dustMaterial type rnd p = Ok (m, p)) /\
    (nebulaNoise x y <= -0.2 ->
     nebulaAlpha x y = Finite 0 /\
     map m !! ((y * 512 + x) * 4 + 3)%nat = Some 0%Z) /\
    (-0.2 < nebulaNoise x y ->
     exists a, nebulaAlpha x y = Finite a /\ 0 < a /\
               a = Rpower ((nebulaNoise x y + 1) * 0.5 - 0.4) 2.5 * 80).
Proof.
  intros Hx Hy.
  destruct (dustMaterial_spec type) as (m & Hrun & _ & Hval).
  pose proof (Hval x y 3%nat Hx Hy ltac:(lia)) as V. simpl in V.
  exists m. split; [done|].
  destruct (nebulaAlpha_cases x y) as [[Hn Ha] | [Hn (a & Ha & Hr & Hf)]].
  - split; [|intros; lra]. intros _. split; [done|].
    rewrite V, Ha. f_equal. apply (ToUint8Clamp_integer 0). lia.
  - split; [intros; lra|]. intros _. exists a.
    split; [done|]. split; [lra | done].
Qed.

Lemma nebula_floor_witness :
  exists m,
    (forall rnd p, dustMaterial "dark" rnd p = Ok (m, p)) /\
    (nebulaNoise 3 5 <= -0.2 ->
     nebulaAlpha 3 5 = Finite 0 /\
     map m !! ((5 * 512 + 3) * 4 + 3)%nat = Some 0%Z) /\
    (-0.2 < nebulaNoise 3 5 ->
     exists a, nebulaAlpha 3 5 = Finite a /\ 0 < a /\
               a = Rpower ((nebulaNoise 3 5 + 1) * 0.5 - 0.4) 2.5 * 80).
Proof. apply (nebula_floor "dark" 3 5); lia. Defined.

(** ** DeepSpaceObjects *)

Lemma pushGalaxy_spec i objectData rnd p :
  unit_interval rnd ->
  exists obj,
    pushGalaxy i objectData rnd p = Ok (objectData ++ [obj], (p + 4)%nat) /\
    distantGalaxy obj.
Proof.
  intros Hr.
  pose proof (Hr p) as H0. pose proof (Hr (S (S p))) as H2.
  pose proof (Hr (S (S (S p)))) as H3.
  assert (Hacos : Math_acos (rnd (S (S p)) * 2 - 1) rnd (S (S (S p)))
                  = Ok (acos (rnd (S (S p)) * 2 - 1), S (S (S p)))).
  { apply Math_acos_Ok. lra. }
  eexists. split.
  - unfold pushGalaxy.
    rewrite (bind_Ok _ _ _ _ _ _ (Math_random_Ok _ _)).
    rewrite (bind_Ok _ _ _ _ _ _ (Math_random_Ok _ _)).
    rewrite (bind_Ok _ _ _ _ _ _ (Math_random_Ok _ _)).
    rewrite (bind_Ok _ _ _ _ _ _ Hacos).
    rewrite (bind_Ok _ _ _ _ _ _ (Math_random_Ok _ _)).
    unfold ret. f_equal. f_equal. lia.
  - split; [reflexivity|]. split; simpl; [|lra].
    eexists _, _, _. split; [reflexivity|].
    rewrite spherical_distance by lra. lra.
Qed.

Lemma pushCluster_spec i objectData rnd p :
  unit_interval rnd ->
  exists obj,
    pushCluster i objectData rnd p = Ok (objectData ++ [obj], (p + 4)%nat) /\
    globularCluster obj.
Proof.
  intros Hr.
  pose proof (Hr p) as H0. pose proof (Hr (S (S p))) as H2.
  pose proof (Hr (S (S (S p)))) as H3.
  assert (Hacos : Math_acos (rnd (S (S p)) * 2 - 1) rnd (S (S (S p)))
                  = Ok (acos (rnd (S (S p)) * 2 - 1), S (S (S p)))).
  { apply Math_acos_Ok. lra. }
  eexists. split.
  - unfold pushCluster.
    rewrite (bind_Ok _ _ _ _ _ _ (Math_random_Ok _ _)).
    rewrite (bind_Ok _ _ _ _ _ _ (Math_random_Ok _ _)).
    rewrite (bind_Ok _ _ _ _ _ _ (Math_random_Ok _ _)).
    rewrite (bind_Ok _ _ _ _ _ _ Hacos).
    rewrite (bind_Ok _ _ _ _ _ _ (Math_random_Ok _ _)).
    unfold ret. f_equal. f_equal. lia.
  - split; [reflexivity|]. split; simpl; [|lra].
    eexists _, _, _. split; [reflexivity|].
    rewrite spherical_distance by lra. lra.
Qed.

(** A loop whose rounds each push one object of a kind, with four draws. *)
Lemma forLoop_push rnd (body : nat -> list SpaceObject -> JS (list SpaceObject))
    (P : SpaceObject -> Prop) :
  (forall i data p, exists obj,
     body i data rnd p = Ok (data ++ [obj], (p + 4)%nat) /\ P obj) ->
  forall n i data p, exists objs,
    forLoop n i body data rnd p = Ok (data ++ objs, (p + 4 * n)%nat) /\
    length objs = n /\ Forall P objs.
Proof.
  intros Hbody. induction n as [|n IH]; intros i data p.
  - exists []. simpl. unfold ret. rewrite app_nil_r, Nat.add_0_r. done.
  - destruct (Hbody i data p) as (obj & Hrun & Hobj).
    destruct (IH (S i) (data ++ [obj]) (p + 4)%nat) as (objs & Hloop & Hlen & Hall).
    exists (obj :: objs). simpl. rewrite (bind_Ok _ _ _ _ _ _ Hrun), Hloop.
    split; [|split; [by rewrite Hlen | by constructor]].
    rewrite <- app_assoc. simpl. f_equal. f_equal. lia.
Qed.

(** X10: under every oracle with values in [0, 1), [DeepSpaceObjects]
    builds its list with 92 draws and no [NaN]: 15 galaxies, 400 to 1000
    units away with a brightness in [0.15, 0.35), followed by 8 clusters,
    300 to 800 units away with a brightness in [0.3, 0.6). *)
Theorem deep_space_objects rnd p :
  unit_interval rnd ->
  exists galaxies clusters,
    deepSpaceObjects rnd p = Ok (galaxies ++ clusters, (p + 92)%nat) /\
    length galaxies = 15%nat /\ length clusters = 8%nat /\
    Forall distantGalaxy galaxies /\ Forall globularCluster clusters.
Proof.
  intros Hr.
  destruct (forLoop_push rnd pushGalaxy distantGalaxy
              (fun i data p => pushGalaxy_spec i data rnd p Hr) 15 0%nat [] p)
    as (galaxies & Hg & Lg & Fg).
  destruct (forLoop_push rnd pushCluster globularCluster
              (fun i data p => pushCluster_spec i data rnd p Hr) 8 0%nat
              ([] ++ galaxies) (p + 4 * 15)%nat)
    as (clusters & Hc & Lc & Fc).
  exists galaxies, clusters. split; [|done].
  unfold deepSpaceObjects.
  rewrite (bind_Ok _ _ _ _ _ _ Hg), (bind_Ok _ _ _ _ _ _ Hc).
  unfold ret. simpl. f_equal. f_equal. lia.
Qed.

Lemma deep_space_objects_witness :
  exists galaxies clusters,
    deepSpaceObjects (fun _ => 1/2) 0%nat
      = Ok (galaxies ++ clusters, (0 + 92)%nat) /\
    length galaxies = 15%nat /\ length clusters = 8%nat /\
    Forall distantGalaxy galaxies /\ Forall globularCluster clusters.
Proof.
  apply (deep_space_objects (fun _ => 1/2) 0%nat). intros n. lra.
Defined.

Lemma renderObject_galaxy k obj :
  distantGalaxy obj ->
  renderObject k obj
    = mkObjectMesh k (position obj) (0.15, 6%nat, 6%nat)
        (THREE.mkColor 0.95 0.92 1.0) true (brightness obj * 0.4) /\
  0.06 <= brightness obj * 0.4 < 0.14.
Proof.
  intros (Ht & _ & Hb). unfold renderObject. rewrite Ht.
  rewrite !decide_True by done. split; [done | lra].
Qed.

Lemma renderObject_cluster k obj :
  globularCluster obj ->
  renderObject k obj
    = mkObjectMesh k (position obj) (0.08, 8%nat, 8%nat)
        (THREE.mkColor 1.0 0.95 1.0) true (brightness obj * 0.4) /\
  0.12 <= brightness obj * 0.4 < 0.24.
Proof.
  intros (Ht & _ & Hb). unfold renderObject. rewrite Ht.
  rewrite !decide_False by done. split; [done | lra].
Qed.

(** X11: the objects are rendered one mesh each, in order, with the index
    as key and the position of the object: the first 15 (galaxies) as
    spheres of radius 0.15 with 6 segments and an opacity in [0.06, 0.14),
    the 8 others (clusters) as spheres of radius 0.08 with 8 segments and an
    opacity in [0.12, 0.24). *)
Theorem deep_space_meshes rnd p k :
  unit_interval rnd -> (k < 23)%nat ->
  exists objects q obj mesh,
    deepSpaceObjects rnd p = Ok (objects, q) /\
    length (renderObjects objects) = 23%nat /\
    objects !! k = Some obj /\
    renderObjects objects !! k = Some mesh /\
    key mesh = k /\ mesh_position mesh = position obj /\
    material_opacity mesh = brightness obj * 0.4 /\
    ((k < 15)%nat ->
     sphereGeometry_args mesh = (0.15, 6%nat, 6%nat) /\
     0.06 <= material_opacity mesh < 0.14) /\
    ((15 <= k)%nat ->
     sphereGeometry_args mesh = (0.08, 8%nat, 8%nat) /\
     0.12 <= material_opacity mesh < 0.24).
Proof.
  intros Hr Hk.
  destruct (forLoop_push rnd pushGalaxy distantGalaxy
              (fun i data p => pushGalaxy_spec i data rnd p Hr) 15 0%nat [] p)
    as (galaxies & Hg & Lg & Fg).
  destruct (forLoop_push rnd pushCluster globularCluster
              (fun i data p => pushCluster_spec i data rnd p Hr) 8 0%nat
              ([] ++ galaxies) (p + 4 * 15)%nat)
    as (clusters & Hc & Lc & Fc).
  assert (Hrun : deepSpaceObjects rnd p
                 = Ok (galaxies ++ clusters, (p + 92)%nat)).
  { unfold deepSpaceObjects.
    rewrite (bind_Ok _ _ _ _ _ _ Hg), (bind_Ok _ _ _ _ _ _ Hc).
    unfold ret. simpl. f_equal. f_equal. lia. }
  assert (Hlen : length (galaxies ++ clusters) = 23%nat).
  { rewrite length_app. lia. }
  destruct (lookup_lt_is_Some_2 (galaxies ++ clusters) k ltac:(lia))
    as [obj Hobj].
  exists (galaxies ++ clusters), (p + 92)%nat, obj, (renderObject k obj).
  split; [done|]. unfold renderObjects.
  split; [by rewrite length_imap|]. split; [done|].
  split; [by rewrite list_lookup_imap, Hobj|].
  split; [done|]. split; [done|]. split; [done|].
  destruct (decide (k < 15)%nat) as [Hlt|Hge].
  - rewrite lookup_app_l in Hobj by lia.
    pose proof (proj1 (Forall_lookup _ _) Fg k obj Hobj) as Hgal.
    destruct (renderObject_galaxy k obj Hgal) as [-> Hop].
    split; [done | intros; lia].
  - rewrite lookup_app_r in Hobj by lia.
    pose proof (proj1 (Forall_lookup _ _) Fc _ obj Hobj) as Hcl.
    destruct (renderObject_cluster k obj Hcl) as [-> Hop].
    split; [intros; lia | done].
Qed.

Lemma deep_space_meshes_witness :
  exists objects q obj mesh,
    deepSpaceObjects (fun _ => 1/2) 0%nat = Ok (objects, q) /\
    length (renderObjects objects) = 23%nat /\
    objects !! 20%nat = Some obj /\
    renderObjects objects !! 20%nat = Some mesh /\
    key mesh = 20%nat /\ mesh_position mesh = position obj /\
    material_opacity mesh = brightness obj * 0.4 /\
    ((20 < 15)%nat ->
     sphereGeometry_args mesh = (0.15, 6%nat, 6%nat) /\
     0.06 <= material_opacity mesh < 0.14) /\
    ((15 <= 20)%nat ->
     sphereGeometry_args mesh = (0.08, 8%nat, 8%nat) /\
     0.12 <= material_opacity mesh < 0.24).
Proof.
  apply (deep_space_meshes (fun _ => 1/2) 0%nat 20%nat).
  - intros n. lra.
  - lia.
Defined.

(** ** The slow rotations *)

(** X12: [n] frames turn a mounted nebula by [n * 0.00005] about y and by
    [n * 0.00003] about z and never about x; while the mesh is not mounted
    the frames do nothing. *)
Theorem dust_rotation_after_frames n rotation :
  Nat.iter n dustFrame (Some rotation)
    = Some (Object3D.mkEuler (Object3D.x rotation)
              (Object3D.y rotation + INR n * 0.00005)
              (Object3D.z rotation + INR n * 0.00003)) /\
  Nat.iter n dustFrame None = None.
Proof.
  induction n as [|n [IHs IHn]].
  - destruct rotation as [rx ry rz]. simpl. split; [|done].
    do 2 f_equal; lra.
  - rewrite !Nat.iter_succ, IHs, IHn, S_INR. simpl. split; [|done].
    do 2 f_equal; lra.
Qed.

(** X13: [n] frames turn the mounted group of reference objects by
    [n * 0.001] about y and by [n * 0.0005] about x and never about z; while
    the group is not mounted the frames do nothing. *)
Theorem reference_rotation_after_frames n rotation :
  Nat.iter n referenceFrame (Some rotation)
    = Some (Object3D.mkEuler (Object3D.x rotation + INR n * 0.0005)
              (Object3D.y rotation + INR n * 0.001)
              (Object3D.z rotation)) /\
  Nat.iter n referenceFrame None = None.
Proof.
  induction n as [|n [IHs IHn]].
  - destruct rotation as [rx ry rz]. simpl. split; [|done].
    do 2 f_equal; lra.
  - rewrite !Nat.iter_succ, IHs, IHn, S_INR. simpl. split; [|done].
    do 2 f_equal; lra.
Qed.

(** ** The skip test *)

(** X14: whatever the latitude draw, a second draw below 0.1 places the star
    after two draws; a second draw of 0.4 or more leaves the decision to a
    third draw, which skips the star exactly when it is above 0.3. *)
Theorem skip_test_thresholds rnd p :
  (rnd (p + 1)%nat < 0.1 -> skipStar rnd p = Ok (false, (p + 2)%nat)) /\
  (0.4 <= rnd (p + 1)%nat ->
   skipStar rnd p
     = Ok (bool_decide (rnd (p + 2)%nat > 0.3), (p + 3)%nat)).
Proof.
  replace (p + 1)%nat with (S p) by lia.
  replace (p + 2)%nat with (S (S p)) by lia.
  replace (p + 3)%nat with (S (S (S p))) by lia.
  assert (Hd : 0 < exp (- Rabs ((rnd p - 0.5) * PI) * 3) <= 1).
  { split; [apply exp_pos|]. apply exp_nonpos_le_1.
    pose proof (Rabs_pos ((rnd p - 0.5) * PI)). lra. }
  unfold skipStar, bind, Math_random, ret. split; intros H.
  - rewrite bool_decide_eq_true_2; [done | lra].
  - rewrite bool_decide_eq_false_2; [done | lra].
Qed.

Lemma skip_test_thresholds_witness :
  skipStar (fun _ => 0.05) 0%nat = Ok (false, (0 + 2)%nat).
Proof.
  apply (proj1 (skip_test_thresholds (fun _ => 0.05) 0%nat)). lra.
Defined.

(** ** The nebula: the type changes the palette only *)

(** X15: the alpha channel of the raster does not depend on the nebula
    type: two materials of any two types have the same alpha byte at every
    pixel. *)
Theorem nebula_alpha_ignores_the_type type1 type2 x y :
  (x < 512)%nat -> (y < 512)%nat ->
  exists m1 m2,
    (forall rnd p, dustMaterial type1 rnd p = Ok (m1, p)) /\
    (forall rnd p, dustMaterial type2 rnd p = Ok (m2, p)) /\
    map m1 !! ((y * 512 + x) * 4 + 3)%nat
      = map m2 !! ((y * 512 + x) * 4 + 3)%nat.
Proof.
  intros Hx Hy.
  destruct (dustMaterial_spec type1) as (m1 & Hrun1 & _ & Hval1).
  destruct (dustMaterial_spec type2) as (m2 & Hrun2 & _ & Hval2).
  exists m1, m2. split; [done|]. split; [done|].
  rewrite (Hval1 x y 3%nat Hx Hy ltac:(lia)).
  by rewrite (Hval2 x y 3%nat Hx Hy ltac:(lia)).
Qed.

Lemma nebula_alpha_ignores_the_type_witness :
  exists m1 m2,
    (forall rnd p, dustMaterial "dark" rnd p = Ok (m1, p)) /\
    (forall rnd p, dustMaterial "reflection" rnd p = Ok (m2, p)) /\
    map m1 !! ((5 * 512 + 3) * 4 + 3)%nat
      = map m2 !! ((5 * 512 + 3) * 4 + 3)%nat.
Proof. apply (nebula_alpha_ignores_the_type "dark" "reflection" 3 5); lia. Defined.

(** ** The colour of a twinkling star *)

(** X16: for base colour channels in [0, 1], a frame that brightens a star
    (scintillation at least 1) writes a red channel that is not below the
    base one and green and blue channels that are not above theirs; a frame
    that dims it (scintillation at most 1) does the opposite. *)
Theorem twinkle_shifts_the_colour time sf g rnd p i base c0 c1 c2 :
  wf_starfield sf g -> (i < count sf)%nat ->
  get (store sf) (sizes_ sf) i = Some base ->
  get (store sf) (colors_ sf) (i * 3) = Some c0 ->
  get (store sf) (colors_ sf) (i * 3 + 1) = Some c1 ->
  get (store sf) (colors_ sf) (i * 3 + 2) = Some c2 ->
  0 <= c0 -> 0 <= c1 -> 0 <= c2 ->
  exists sf' r' g' b',
    useFrame time sf rnd p = Ok (sf', (p + count sf)%nat) /\
    get (store sf') (array (attributes_color g)) (i * 3) = Some r' /\
    get (store sf') (array (attributes_color g)) (i * 3 + 1) = Some g' /\
    get (store sf') (array (attributes_color g)) (i * 3 + 2) = Some b' /\
    (1 <= scintillation time (rnd (p + i)%nat) i base ->
     c0 <= r' /\ g' <= c1 /\ b' <= c2) /\
    (scintillation time (rnd (p + i)%nat) i base <= 1 ->
     r' <= c0 /\ c1 <= g' /\ c2 <= b').
Proof.
  intros Hwf Hi Hs Hc0 Hc1 Hc2 P0 P1 P2.
  destruct (useFrame_spec time sf g rnd p Hwf) as (h' & R & _ & _ & V).
  destruct (V i base c0 c1 c2 Hi Hs Hc0 Hc1 Hc2) as (_ & W0 & W1 & W2).
  pose proof (wf_colors_le_1 _ _ Hwf _ _ Hc0) as L0.
  pose proof (wf_colors_le_1 _ _ Hwf _ _ Hc1) as L1.
  pose proof (wf_colors_le_1 _ _ Hwf _ _ Hc2) as L2.
  eexists _, _, _, _. split; [exact R|]. simpl.
  split; [exact W0|]. split; [exact W1|]. split; [exact W2|].
  unfold colorShift.
  set (sc := scintillation time (rnd (p + i)%nat) i base).
  split; intros Hsc.
  - split; [apply Rmin_glb; nra|].
    split; (etransitivity; [apply Rmin_r|]; nra).
  - split; [etransitivity; [apply Rmin_r|]; nra|].
    split; apply Rmin_glb; nra.
Qed.

Lemma twinkle_shifts_the_colour_witness :
  exists sf' r' g' b',
    useFrame 1 (oneStar (3/2)) (fun _ => 0) 0%nat
      = Ok (sf', (0 + count (oneStar (3/2)))%nat) /\
    get (store sf') (array (attributes_color (mounted true))) (0 * 3) = Some r' /\
    get (store sf') (array (attributes_color (mounted true))) (0 * 3 + 1) = Some g' /\
    get (store sf') (array (attributes_color (mounted true))) (0 * 3 + 2) = Some b' /\
    (1 <= scintillation 1 0 0 (3/2) -> 0.95 <= r' /\ g' <= 0.8 /\ b' <= 0.65) /\
    (scintillation 1 0 0 (3/2) <= 1 -> r' <= 0.95 /\ 0.8 <= g' /\ 0.65 <= b').
Proof.
  apply (twinkle_shifts_the_colour 1 (oneStar (3/2)) (mounted true)
           (fun _ => 0) 0%nat 0%nat (3/2) 0.95 0.8 0.65).
  - apply oneStar_wf.
  - simpl. lia.
  - apply oneStar_get.
  - apply oneStar_get.
  - apply oneStar_get.
  - apply oneStar_get.
  - lra.
  - lra.
  - lra.
Defined.

(** * Generation returns with probability 1 *)

(** A skipped round: its second draw is at least 0.1 and its third is above
    0.3; three draws are made. *)
Lemma skipStar_true_draws rnd p q :
  skipStar rnd p = Ok (true, q) ->
  q = (p + 3)%nat /\ 0.1 <= rnd (p + 1)%nat /\ 0.3 < rnd (p + 2)%nat.
Proof.
  replace (p + 1)%nat with (S p) by lia.
  replace (p + 2)%nat with (S (S p)) by lia.
  unfold skipStar, bind, Math_random, ret.
  destruct (bool_decide (rnd (S p) < _)) eqn:Hplace; [discriminate|].
  apply bool_decide_eq_false_1 in Hplace.
  destruct (bool_decide (rnd (S (S p)) > 0.3)) eqn:Hthird; [|discriminate].
  apply bool_decide_eq_true_1 in Hthird.
  intros [= <-].
  pose proof (exp_pos (- Rabs ((rnd p - 0.5) * PI) * 3)).
  split; [lia|]. split; lra.
Qed.

(** A star that is never let through: all the rounds from [p] are skipped,
    so the draws are in every [skipBox p k]. *)
Lemma never_accepted_inBox rnd :
  unit_interval rnd ->
  forall k p, ~ accepts rnd p -> inBox (skipBox p k) rnd.
Proof.
  intros Hr. induction k as [|k IH]; intros p Hnot; [constructor|].
  destruct (skipStar_Ok rnd p) as (b & q & Hskip & _).
  destruct b; [|exfalso; apply Hnot; by apply (accepts_now rnd p q)].
  destruct (skipStar_true_draws rnd p q Hskip) as (-> & H1 & H2).
  simpl. constructor; [|constructor].
  - simpl. split; [done | left; apply Hr].
  - simpl. split; [lra | left; apply Hr].
  - apply IH. intros Hacc. apply Hnot.
    by apply (accepts_later rnd p (p + 3)%nat).
Qed.

Lemma skipBox_indices p k i : i ∈ (fst <$> skipBox p k) -> (p < i)%nat.
Proof.
  revert p. induction k as [|k IH]; intros p; simpl.
  - by intros ?%elem_of_nil.
  - rewrite !elem_of_cons. intros [-> | [-> | Hin]]; [lia | lia |].
    specialize (IH _ Hin). lia.
Qed.

Lemma skipBox_proper p k : properBox (skipBox p k).
Proof.
  split.
  - revert p. induction k as [|k IH]; intros p; simpl; [constructor|].
    constructor; [|constructor; [|apply IH]].
    + rewrite elem_of_cons. intros [E | Hin%skipBox_indices]; lia.
    + intros Hin%skipBox_indices. lia.
  - revert p. induction k as [|k IH]; intros p; simpl; [constructor|].
    constructor; [simpl; lra|]. constructor; [simpl; lra | apply IH].
Qed.

Lemma skipBox_volume p k : boxVolume (skipBox p k) = 0.63 ^ k.
Proof.
  revert p. induction k as [|k IH]; intros p; simpl; [done|].
  unfold boxVolume in IH. rewrite IH. lra.
Qed.

(** 0.63 squared is under a half. *)
Lemma pow_063_half j : 0.63 ^ (2 * j) <= (1 / 2) ^ j.
Proof.
  rewrite pow_mult. apply pow_incr. simpl. lra.
Qed.

Lemma half_pow_small eps : 0 < eps -> exists m, (1 / 2) ^ m <= eps.
Proof.
  intros Heps.
  destruct (pow_lt_1_zero (1 / 2) ltac:(rewrite Rabs_right; lra) eps Heps)
    as [m Hm].
  exists m. specialize (Hm m ltac:(lia)).
  rewrite Rabs_right in Hm; [lra|].
  apply Rle_ge. apply pow_le. lra.
Qed.

(** The sets "no star gets through from draw [p] on", one per [p], are
    covered by boxes of total volume at most [eps]. *)
Lemma skip_cover_sum eps m :
  0 < eps -> (1 / 2) ^ m <= eps ->
  forall n,
    sum_f_R0 (fun k => boxVolume (skipBox k (2 * (k + 1 + m)))) n
      <= eps * (1 - (1 / 2) ^ (n + 1)).
Proof.
  intros Heps Hm.
  assert (Hterm : forall k,
            boxVolume (skipBox k (2 * (k + 1 + m))) <= eps * (1 / 2) ^ (k + 1)).
  { intros k. rewrite skipBox_volume.
    etransitivity; [apply pow_063_half|].
    replace (k + 1 + m)%nat with (m + (k + 1))%nat by lia.
    rewrite pow_add.
    assert (0 <= (1 / 2) ^ (k + 1)) by (apply pow_le; lra).
    nra. }
  induction n as [|n IH].
  - simpl sum_f_R0. specialize (Hterm 0%nat). simpl in *. lra.
  - rewrite tech5. specialize (Hterm (S n)).
    replace (S n + 1)%nat with (S (n + 1)) in * by lia.
    rewrite <- tech_pow_Rmult in *.
    set (x := (1 / 2) ^ (n + 1)) in *.
    set (f := sum_f_R0 _ n) in *.
    set (t := boxVolume _) in *.
    assert (0 <= x) by (apply pow_le; lra).
    nra.
Qed.

(** The draws under which generation never returns have probability 0. *)
Lemma generation_returns_almost_surely count p :
  nullSet (fun rnd =>
    unit_interval rnd /\
    ~ exists fuel bufs q, generateStars fuel count rnd p = Ok (bufs, q)).
Proof.
  intros eps Heps. destruct (half_pow_small eps Heps) as [m Hm].
  exists (fun k => skipBox k (2 * (k + 1 + m))). split; [|split].
  - intros n. apply skipBox_proper.
  - intros rnd [Hr Hnever].
    destruct (classic (forall p', accepts rnd p')) as [Hacc|Hnot].
    + exfalso. apply Hnever.
      apply (starLoop_ends rnd count Hr Hacc count 0%nat _ p);
        [lia | apply Float32Array_buffers].
    + apply not_all_ex_not in Hnot as [p' Hp'].
      exists p'. by apply never_accepted_inBox.
  - intros n. etransitivity; [by apply skip_cover_sum|].
    assert (0 <= (1 / 2) ^ (n + 1)) by (apply pow_le; lra). nra.
Qed.

Lemma skipOnce_unit_interval : unit_interval skipOnce.
Proof. intros n. unfold skipOnce. case_decide; lra. Qed.

(** Under [skipOnce], one star: the first round is skipped with three draws
    and the second round places the star. *)
Lemma skipOnce_run :
  skipStar skipOnce 0%nat = Ok (true, 3%nat) /\
  exists bufs, generateStars 2 1 skipOnce 0%nat = Ok (bufs, 12%nat).
Proof.
  assert (Hskip : skipStar skipOnce 0%nat = Ok (true, 3%nat)).
  { apply skipStar_skips; unfold skipOnce; rewrite decide_True by lia; lra. }
  assert (Hplace : skipStar skipOnce 3%nat = Ok (false, 5%nat)).
  { apply skipStar_places. unfold skipOnce. rewrite decide_False by lia. lra. }
  split; [exact Hskip|].
  destruct (placeStar_spec 1 0%nat
              (mkStarBuffers (Float32Array (1 * 3)) (Float32Array (1 * 3))
                 (Float32Array 1) (Float32Array 1))
              skipOnce 5%nat skipOnce_unit_interval (Float32Array_buffers 1)
              ltac:(lia)) as (bufs & Hrun & _).
  exists bufs. unfold generateStars.
  cbn [starLoop]. rewrite decide_True by lia.
  rewrite (bind_Ok _ _ _ _ _ _ Hskip). rewrite decide_True by lia.
  rewrite (bind_Ok _ _ _ _ _ _ Hplace), (bind_Ok _ _ _ _ _ _ Hrun).
  by rewrite decide_False by lia.
Qed.

(** ** C2: the shape of the generated buffers *)

(** C2: for every count [N], with the draws of [Math.random()] independent
    and uniform on [0, 1), star generation returns with probability 1 (the
    sequences of draws under which it does not return form a null set), and
    what it returns is a position buffer and a colour buffer of [3N]
    numbers, a size buffer and a magnitude buffer of [N] numbers, with every
    colour channel in [0, 1] and the position of star [i] at a distance
    within the bounds of its band: [50, 150] below [0.1 N], [150, 450] below
    [0.3 N], [400, 1200] for the rest. *)
Theorem generated_buffers count p :
  nullSet (fun rnd =>
    unit_interval rnd /\
    ~ exists fuel bufs q, generateStars fuel count rnd p = Ok (bufs, q)) /\
  forall rnd fuel bufs q,
    unit_interval rnd ->
    generateStars fuel count rnd p = Ok (bufs, q) ->
    length (positions bufs) = (count * 3)%nat /\
    length (colors bufs) = (count * 3)%nat /\
    length (sizes bufs) = count /\
    length (magnitudes bufs) = count /\
    (forall j, (j < count * 3)%nat ->
       exists c, colors bufs !! j = Some c /\ 0 <= c <= 1) /\
    (forall i, (i < count)%nat ->
       exists x y z,
         positions bufs !! (i * 3)%nat = Some x /\
         positions bufs !! (i * 3 + 1)%nat = Some y /\
         positions bufs !! (i * 3 + 2)%nat = Some z /\
         (INR i < 0.1 * INR count ->
          50 <= sqrt (x * x + y * y + z * z) <= 150) /\
         (0.1 * INR count <= INR i -> INR i < 0.3 * INR count ->
          150 <= sqrt (x * x + y * y + z * z) <= 450) /\
         (0.3 * INR count <= INR i ->
          400 <= sqrt (x * x + y * y + z * z) <= 1200)).
Proof.
  split; [apply generation_returns_almost_surely|].
  intros rnd fuel bufs q Hr Hrun.
  destruct (generateStars_placed _ _ _ _ _ _ Hr Hrun) as [Hlen Hall].
  destruct Hlen as (Lp & Lc & Ls & Lm).
  split; [done|]. split; [done|]. split; [done|]. split; [done|]. split.
  - intros j Hj.
    destruct (lookup_lt_is_Some_2 (colors bufs) j ltac:(lia)) as [c Hc].
    exists c. split; [done|].
    pose proof (placed_colors_range rnd count bufs
                  (conj Lp (conj Lc (conj Ls Lm))) Hall j c Hc). lra.
  - intros i Hi. destruct (Hall i Hi) as [Pp _ _ _].
    destruct Pp as (x & y & z & Hx & Hy & Hz & Hd).
    exists x, y, z. split; [done|]. split; [done|]. split; [done|].
    pose proof (pos_INR count) as Hc0. unfold inTier in Hd.
    repeat case_decide; repeat split; intros; lra.
Qed.

Lemma generated_buffers_witness :
  exists bufs,
    generateStars 2 1 skipOnce 0%nat = Ok (bufs, 12%nat) /\
    length (positions bufs) = 3%nat /\ length (colors bufs) = 3%nat /\
    length (sizes bufs) = 1%nat /\ length (magnitudes bufs) = 1%nat.
Proof.
  destruct (proj2 skipOnce_run) as (bufs & Hrun).
  exists bufs. split; [exact Hrun|].
  destruct (proj2 (generated_buffers 1 0%nat) skipOnce 2%nat bufs 12%nat
              skipOnce_unit_interval Hrun) as (Lp & Lc & Ls & Lm & _).
  repeat split; assumption.
Defined.

(** ** C3: the end of the generation loop *)

(** C3: for every count, with the draws of [Math.random()] independent and
    uniform on [0, 1), the loop ends with probability 1: the sequences of
    draws under which it never returns form a null set.  No run meets a
    [NaN] or any other error; a run that ends has written every index of
    every star; and a skipped round ([i--; continue], then [i++]) changes
    neither the index nor the buffers, so that the next round is for the
    same star and no index is left unfilled. *)
Theorem star_loop_ends_and_fills_every_index count p :
  nullSet (fun rnd =>
    unit_interval rnd /\
    ~ exists fuel bufs q, generateStars fuel count rnd p = Ok (bufs, q)) /\
  forall rnd, unit_interval rnd ->
    (forall fuel, generateStars fuel count rnd p <> NotANumber) /\
    (forall fuel bufs q,
       generateStars fuel count rnd p = Ok (bufs, q) ->
       starBuffersOf count bufs /\
       forall i, (i < count)%nat -> starPlaced rnd count bufs i) /\
    (forall fuel i bufs p' q,
       (i < count)%nat -> skipStar rnd p' = Ok (true, q) ->
       starLoop (S fuel) count i bufs rnd p'
         = starLoop fuel count i bufs rnd q).
Proof.
  split; [apply generation_returns_almost_surely|].
  intros rnd Hr. split; [|split].
  - intros fuel. apply starLoop_no_NaN; [done | apply Float32Array_buffers].
  - intros fuel bufs q. by apply generateStars_placed.
  - intros fuel i bufs p' q Hi Hskip. cbn [starLoop].
    rewrite decide_True by done. by rewrite (bind_Ok _ _ _ _ _ _ Hskip).
Qed.

Lemma star_loop_ends_and_fills_every_index_witness :
  exists bufs,
    skipStar skipOnce 0%nat = Ok (true, 3%nat) /\
    generateStars 2 1 skipOnce 0%nat = Ok (bufs, 12%nat) /\
    starBuffersOf 1 bufs /\
    forall i, (i < 1)%nat -> starPlaced skipOnce 1 bufs i.
Proof.
  destruct skipOnce_run as (Hskip & bufs & Hrun).
  exists bufs. split; [exact Hskip|]. split; [exact Hrun|].
  exact (proj1 (proj2 (proj2 (star_loop_ends_and_fills_every_index 1 0%nat)
                         skipOnce skipOnce_unit_interval))
           2%nat bufs 12%nat Hrun).
Defined.

(** * The size written, frame after frame *)



(** ** C4: the size written and the base size *)



